(** * jtoolbox: filesystem housekeeping helpers and the HDF5 key/value logger

    A shallow embedding of [jtoolbox/files.py] (both the current and the
    legacy copy carry the same [get_unique_filename] and
    [move_files_to_top]) and of [jtoolbox/utils.py] ([h5_logger] and
    [tqdm_joblib]), with the properties of the toolbox stated over it. *)

From Stdlib Require Import String Ascii List ZArith Lia Bool.
From stdpp Require Import base decidable option list strings pretty gmap.

Local Open Scope string_scope.
Local Open Scope list_scope.

(** ** Python values shared by both modules *)

Module Py.

Declare Scope py_scope.
Delimit Scope py_scope with py.

(** The exception classes the modelled code can meet. *)
Inductive exn : Type :=
| NameError (name : string)
| KeyError
| AttributeError
| AssertionError (msg : string)
| TypeError
| IndexError
| ValueError
| FileNotFoundError
| NotADirectoryError
| IsADirectoryError
| OSError
| BlockingIOError
| ShutilError (msg : string).

(** Outcome of a call: a returned value, a raised exception, or the
    bound on loop iterations of the model reached ([OutOfFuel] is no
    Python outcome). *)
Inductive result (A : Type) : Type :=
| Ok (a : A)
| Raise (e : exn)
| OutOfFuel.
Arguments Ok {A} a.
Arguments Raise {A} e.
Arguments OutOfFuel {A}.

(** Code that reads and writes a store [S] and may raise: the store
    reached is returned in every case, what was written before an
    exception stays written. *)
Definition M (S A : Type) : Type := S -> result A * S.

Definition ret {S A} (a : A) : M S A := fun s => (Ok a, s).
Definition raise {S A} (e : exn) : M S A := fun s => (Raise e, s).
Definition bind {S A B} (m : M S A) (k : A -> M S B) : M S B :=
  fun s => match m s with
           | (Ok a, s') => k a s'
           | (Raise e, s') => (Raise e, s')
           | (OutOfFuel, s') => (OutOfFuel, s')
           end.
Definition get {S} : M S S := fun s => (Ok s, s).
Definition lift {S A} (r : result A) : M S A := fun s => (r, s).

(** [try: body except exc: handler] for the exceptions [catches] selects. *)
Definition try_except {S A} (body : M S A) (catches : exn -> bool) (handler : exn -> M S A) : M S A :=
  fun s => match body s with
           | (Raise e, s') => if catches e then handler e s' else (Raise e, s')
           | r => r
           end.

(** [for x in l: body(x)]. *)
Fixpoint for_each {S A} (l : list A) (body : A -> M S unit) : M S unit :=
  match l with
  | [] => ret tt
  | x :: l' => bind (body x) (fun _ => for_each l' body)
  end.

(** [for x in l: acc = body(x, acc)], the value of [acc] at the end. *)
Fixpoint fold_each {S A B} (l : list A) (acc : B) (body : A -> B -> M S B) : M S B :=
  match l with
  | [] => ret acc
  | x :: l' => bind (body x acc) (fun acc' => fold_each l' acc' body)
  end.

(** [str(n)] for a non-negative integer. *)
Definition str_of_nat (n : nat) : string := pretty n.

(** [s.endswith(t)] and [s.startswith(t)]. *)
Definition startswith (s t : string) : bool := String.prefix t s.

Fixpoint endswith_char (s : string) (c : ascii) : bool :=
  match s with
  | EmptyString => false
  | String a EmptyString => Ascii.eqb a c
  | String _ s' => endswith_char s' c
  end.

(** [s[:-1]]. *)
Fixpoint drop_last (s : string) : string :=
  match s with
  | EmptyString => EmptyString
  | String _ EmptyString => EmptyString
  | String a s' => String a (drop_last s')
  end.

(** [c in s]. *)
Fixpoint has_char (c : ascii) (s : string) : bool :=
  match s with
  | EmptyString => false
  | String a s' => (Ascii.eqb a c || has_char c s')%bool
  end.

(** [s.rfind(c)]: index of the last occurrence of [c], [-1] when absent. *)
Fixpoint rfind_go (c : ascii) (s : string) (i : Z) (last : Z) : Z :=
  match s with
  | EmptyString => last
  | String a s' => rfind_go c s' (i + 1) (if Ascii.eqb a c then i else last)
  end.

Definition rfind (c : ascii) (s : string) : Z := rfind_go c s 0 (-1).

(** [s[:i]] and [s[i:]] for [0 <= i]. *)
Fixpoint take (i : nat) (s : string) : string :=
  match i, s with
  | S i', String a s' => String a (take i' s')
  | _, _ => EmptyString
  end.

Fixpoint drop (i : nat) (s : string) : string :=
  match i, s with
  | S i', String _ s' => drop i' s'
  | _, _ => s
  end.

(** [s.split(c)]: never empty, [""] splits to [[""]]. *)
Fixpoint split (c : ascii) (s : string) : list string :=
  match s with
  | EmptyString => [EmptyString]
  | String a s' =>
      if Ascii.eqb a c then EmptyString :: split c s'
      else match split c s' with
           | w :: ws => String a w :: ws
           | [] => [String a EmptyString]
           end
  end.

(** A name a directory entry can have: not empty, no separator, and
    neither [.] nor [..]. *)
Definition name_ok (c : string) : bool :=
  negb (has_char "/" c) && negb (String.eqb c "") &&
  negb (String.eqb c ".") && negb (String.eqb c "..").

Notation "'do' x <- m ; k" := (bind m (fun x => k))
  (at level 10, x name, m at level 100, k at level 200) : py_scope.
Notation "m ;; k" := (bind m (fun _ => k))
  (at level 100, k at level 200, right associativity) : py_scope.

End Py.

Import Py.
Local Open Scope py_scope.

(** ** [os.path] on POSIX *)

Module OsPath.

Definition sep : ascii := "/"%char.
Definition extsep : ascii := "."%char.

(** [posixpath.join(a, b)]. *)
Definition join (a b : string) : string :=
  if startswith b "/" then b
  else if (String.eqb a "" || endswith_char a sep)%bool then a ++ b
  else a ++ "/" ++ b.

(** The loop of [genericpath._splitext] that skips the leading dots of
    the last component: [true] when a character other than the
    extension separator is met before [dotIndex]. *)
Fixpoint has_stem (rest : string) (steps : nat) : bool :=
  match steps, rest with
  | S k, String a rest' =>
      if negb (Ascii.eqb a extsep) then true else has_stem rest' k
  | _, _ => false
  end.

(** [os.path.splitext(p)]. *)
Definition splitext (p : string) : string * string :=
  let sepIndex := rfind sep p in
  let dotIndex := rfind extsep p in
  if (sepIndex <? dotIndex)%Z then
    let filenameIndex := (sepIndex + 1)%Z in
    if has_stem (drop (Z.to_nat filenameIndex) p)
                (Z.to_nat (dotIndex - filenameIndex))
    then (take (Z.to_nat dotIndex) p, drop (Z.to_nat dotIndex) p)
    else (p, "")
  else (p, "").

(** [os.path.basename(p)]: what follows the last separator. *)
Definition basename (p : string) : string :=
  drop (Z.to_nat (rfind sep p + 1)) p.

(** [p.rstrip("/")]. *)
Fixpoint rstrip_sep (p : string) : string :=
  match p with
  | EmptyString => EmptyString
  | String a p' =>
      match rstrip_sep p' with
      | EmptyString => if Ascii.eqb a sep then EmptyString else String a EmptyString
      | r => String a r
      end
  end.

End OsPath.

(** ** Named trees

    A directory tree and the inside of an HDF5 file have the same shape:
    inner nodes list named children, in the order the library reports
    them, and leaves carry the data. *)

Local Set Warnings "-register-all".

Module Tree.

Inductive tree (A : Type) : Type :=
| Leaf (a : A)
| Node (children : list (string * tree A)).
Arguments Leaf {A} a.
Arguments Node {A} children.

Section Ops.
Context {A : Type}.

Definition is_node (t : tree A) : bool :=
  match t with Node _ => true | Leaf _ => false end.

Fixpoint assoc {B} (k : string) (l : list (string * B)) : option B :=
  match l with
  | [] => None
  | (k', v) :: l' => if String.eqb k k' then Some v else assoc k l'
  end.

Fixpoint assoc_remove {B} (k : string) (l : list (string * B)) : list (string * B) :=
  match l with
  | [] => []
  | (k', v) :: l' => if String.eqb k k' then l' else (k', v) :: assoc_remove k l'
  end.

(** Replace the entry in place, or append a new one. *)
Fixpoint assoc_set {B} (k : string) (v : B) (l : list (string * B)) : list (string * B) :=
  match l with
  | [] => [(k, v)]
  | (k', v') :: l' =>
      if String.eqb k k' then (k, v) :: l' else (k', v') :: assoc_set k v l'
  end.

(** Entry reached from [t] through the names [cs]. *)
Fixpoint lookup (t : tree A) (cs : list string) : option (tree A) :=
  match cs with
  | [] => Some t
  | c :: cs' =>
      match t with
      | Node es => match assoc c es with
                   | Some m => lookup m cs'
                   | None => None
                   end
      | Leaf _ => None
      end
  end.

Definition lookup_node (t : tree A) (cs : list string) : bool :=
  match lookup t cs with Some (Node _) => true | _ => false end.

(** Unlink the entry at [cs]; nothing changes when it is absent. *)
Fixpoint remove (t : tree A) (cs : list string) : tree A :=
  match cs with
  | [] => t
  | c :: cs' =>
      match t with
      | Node es =>
          match cs' with
          | [] => Node (assoc_remove c es)
          | _ => match assoc c es with
                 | Some m => Node (assoc_set c (remove m cs') es)
                 | None => t
                 end
          end
      | Leaf _ => t
      end
  end.

(** Link [x] at [cs], over what is there; the parent has to exist. *)
Fixpoint insert (t : tree A) (cs : list string) (x : tree A) : tree A :=
  match cs with
  | [] => t
  | c :: cs' =>
      match t with
      | Node es =>
          match cs' with
          | [] => Node (assoc_set c x es)
          | _ => match assoc c es with
                 | Some m => Node (assoc_set c (insert m cs' x) es)
                 | None => t
                 end
          end
      | Leaf _ => t
      end
  end.

(** Link [x] at [cs], creating the missing inner nodes on the way;
    [None] when a leaf is in the way or [cs] is empty. *)
Fixpoint insert_deep (t : tree A) (cs : list string) (x : tree A) : option (tree A) :=
  match cs with
  | [] => None
  | c :: cs' =>
      match t with
      | Node es =>
          match cs' with
          | [] => Some (Node (assoc_set c x es))
          | _ =>
              let m := match assoc c es with Some m => m | None => Node [] end in
              match insert_deep m cs' x with
              | Some m' => Some (Node (assoc_set c m' es))
              | None => None
              end
          end
      | Leaf _ => None
      end
  end.

(** No leaf lies on the way to [cs]: [insert_deep] can link there. *)
Fixpoint reachable (t : tree A) (cs : list string) : bool :=
  match cs with
  | [] => false
  | c :: cs' =>
      match t with
      | Node es =>
          match cs' with
          | [] => true
          | _ => reachable (match assoc c es with Some m => m | None => Node [] end) cs'
          end
      | Leaf _ => false
      end
  end.

(** Number of links below [t]. *)
Fixpoint links (t : tree A) : nat :=
  match t with
  | Leaf _ => 0
  | Node es => list_sum (map (fun e => S (links (snd e))) es)
  end.

(** Number of nested inner nodes. *)
Fixpoint height (t : tree A) : nat :=
  match t with
  | Leaf _ => 0
  | Node es => S (list_max (map (fun e => height (snd e)) es))
  end.

(** The data of the leaves, in the order of the listing. *)
Fixpoint leaves (t : tree A) : list A :=
  match t with
  | Leaf a => [a]
  | Node es => flat_map (fun e => leaves (snd e)) es
  end.

(** Every inner node lists names that entries can have, each once. *)
Fixpoint wf (t : tree A) : bool :=
  match t with
  | Leaf _ => true
  | Node es =>
      forallb (fun e => name_ok (fst e) && wf (snd e)) es &&
      bool_decide (NoDup (map fst es))
  end.

End Ops.

End Tree.

(** ** The filesystem *)

Module Fs.

Import Tree.

(** A regular file carries its content; a directory lists its entries
    in [os.scandir] order. Symbolic links and permissions are outside
    the model. *)
Abbreviation node := (tree string).
Abbreviation File := (@Leaf string).
Abbreviation Dir := (@Node string).

(** Path resolution. The root of the model is both [/] and the working
    directory. [acc] is the reversed list of names walked so far; an
    empty component or [.] stays in place, [..] goes up, and each of
    them needs the place it is read in to be a directory. *)
Fixpoint canon (fs : node) (acc : list string) (cs : list string) : option (list string) :=
  match cs with
  | [] => Some (rev acc)
  | c :: cs' =>
      if (String.eqb c "" || String.eqb c ".")%bool then
        if lookup_node fs (rev acc) then canon fs acc cs' else None
      else if String.eqb c ".." then
        if lookup_node fs (rev acc) then canon fs (tl acc) cs' else None
      else canon fs (c :: acc) cs'
  end.

Definition resolve (fs : node) (p : string) : option (list string) :=
  if String.eqb p "" then None else canon fs [] (split OsPath.sep p).

Definition stat (fs : node) (p : string) : option node :=
  match resolve fs p with
  | Some cs => lookup fs cs
  | None => None
  end.

(** [os.path.exists(p)] and [os.path.isdir(p)]. *)
Definition exists_ (fs : node) (p : string) : bool :=
  match stat fs p with Some _ => true | None => false end.

Definition isdir (fs : node) (p : string) : bool :=
  match stat fs p with Some (Node _) => true | _ => false end.

(** [os.scandir(p)] as [os.walk] reads it: the names of the
    sub-directories and of the other entries, [None] when [p] is not a
    directory that can be listed. *)
Definition scandir (fs : node) (p : string) : option (list string * list string) :=
  match stat fs p with
  | Some (Node es) =>
      Some (map fst (List.filter (fun e => is_node (snd e)) es),
            map fst (List.filter (fun e => negb (is_node (snd e))) es))
  | _ => None
  end.

(** [os.listdir(p)]. *)
Definition listdir (fs : node) (p : string) : result (list string) :=
  match stat fs p with
  | Some (Node es) => Ok (map fst es)
  | Some (Leaf _) => Raise NotADirectoryError
  | None => Raise FileNotFoundError
  end.

Fixpoint is_prefix (l1 l2 : list string) : bool :=
  match l1, l2 with
  | [], _ => true
  | a :: l1', b :: l2' => String.eqb a b && is_prefix l1' l2'
  | _, _ => false
  end.

(** [os.rename(src, dst)] on one volume (POSIX [rename(2)]): a file
    replaces an existing file, a directory only an empty directory. *)
Definition rename (fs : node) (src dst : string) : result node :=
  match resolve fs src with
  | None => Raise FileNotFoundError
  | Some cs =>
      match lookup fs cs with
      | None => Raise FileNotFoundError
      | Some n =>
          match resolve fs dst with
          | None => Raise FileNotFoundError
          | Some cd =>
              if negb (lookup_node fs (removelast cd)) then Raise FileNotFoundError
              else if (match cs, cd with [], _ | _, [] => true | _, _ => false end) then Raise OSError
              else if bool_decide (cs = cd) then Ok fs
              else
                let fs' := insert (remove fs cs) cd n in
                match lookup fs cd, n with
                | None, Leaf _ => Ok fs'
                | None, Node _ => if is_prefix cs cd then Raise OSError else Ok fs'
                | Some (Leaf _), Leaf _ => Ok fs'
                | Some (Leaf _), Node _ => Raise NotADirectoryError
                | Some (Node _), Leaf _ => Raise IsADirectoryError
                | Some (Node es), Node _ =>
                    if is_prefix cs cd then Raise OSError
                    else match es with [] => Ok fs' | _ => Raise OSError end
                end
          end
      end
  end.

(** [shutil.move(src, dst)] for a source on the same volume. A
    destination that is a directory receives the source under its own
    base name, and refuses when that name is taken there. *)
Definition move (fs : node) (src dst : string) : result node :=
  if isdir fs dst then
    if (match resolve fs src, resolve fs dst with
        | Some cs, Some cd => bool_decide (cs = cd)
        | _, _ => false
        end)
    then rename fs src dst
    else
      let real_dst := OsPath.join dst (OsPath.basename (OsPath.rstrip_sep src)) in
      if exists_ fs real_dst
      then Raise (ShutilError ("Destination path '" ++ real_dst ++ "' already exists"))
      else rename fs src real_dst
  else rename fs src dst.

(** [shutil.rmtree(p)]. *)
Definition rmtree (fs : node) (p : string) : result node :=
  match resolve fs p with
  | Some (c :: cs) =>
      match lookup fs (c :: cs) with
      | Some (Node _) => Ok (remove fs (c :: cs))
      | Some (Leaf _) => Raise NotADirectoryError
      | None => Raise FileNotFoundError
      end
  | Some [] => Raise OSError
  | None => Raise FileNotFoundError
  end.

(** [os.rmdir(p)]: only an empty directory goes. *)
Definition rmdir (fs : node) (p : string) : result node :=
  match resolve fs p with
  | Some (c :: cs) =>
      match lookup fs (c :: cs) with
      | Some (Node []) => Ok (remove fs (c :: cs))
      | Some (Node _) => Raise OSError
      | Some (Leaf _) => Raise NotADirectoryError
      | None => Raise FileNotFoundError
      end
  | Some [] => Raise OSError
  | None => Raise FileNotFoundError
  end.

End Fs.

(** ** [files.py] *)

Module Files.

Import Tree.

(** What the functions of [files.py] act on: the filesystem and the
    lines printed so far. *)
Record world : Type := { fs : Fs.node; out : list string }.

Definition print (line : string) : M world unit :=
  fun w => (Ok tt, {| fs := fs w; out := out w ++ [line] |}).

Definition os_path_exists (p : string) : M world bool :=
  fun w => (Ok (Fs.exists_ (fs w) p), w).

Definition fs_update (op : Fs.node -> result Fs.node) : M world unit :=
  fun w => match op (fs w) with
           | Ok fs' => (Ok tt, {| fs := fs'; out := out w |})
           | Raise e => (Raise e, w)
           | OutOfFuel => (OutOfFuel, w)
           end.

Definition shutil_move (src dst : string) : M world unit :=
  fs_update (fun fs => Fs.move fs src dst).

Definition shutil_rmtree (p : string) : M world unit :=
  fs_update (fun fs => Fs.rmtree fs p).

(** The candidate built in the loop: [f"{name}({suffix}).{ext}"]. *)
Definition candidate (name ext : string) (suffix : nat) : string :=
  name ++ "(" ++ str_of_nat suffix ++ ")." ++ ext.

(** What a candidate puts after [name]. *)
Definition counter_ext (ext : string) (n : nat) : string :=
  "(" ++ str_of_nat n ++ ")." ++ ext.

(** The [while True] loop of [get_unique_filename], entered with the
    value of [suffix] before the increment; [fuel] bounds the number
    of iterations. *)
Fixpoint unique_loop (fs : Fs.node) (fuel : nat) (name ext : string) (suffix : nat)
  : option string :=
  match fuel with
  | 0 => None
  | S fuel' =>
      let suffix := suffix + 1 in
      let filepath := candidate name ext suffix in
      if negb (Fs.exists_ fs filepath) then Some filepath
      else unique_loop fs fuel' name ext suffix
  end.

Definition get_unique_filename_fuel (fuel : nat) (fs : Fs.node) (filepath : string)
  : option string :=
  let '(name, ext) := OsPath.splitext filepath in
  let suffix := 0 in
  if Fs.exists_ fs filepath then unique_loop fs fuel name ext suffix
  else Some filepath.

(** [get_unique_filename(filepath)]: the loop gets one more iteration
    than the filesystem has entries. *)
Definition get_unique_filename (filepath : string) : M world string :=
  fun w => match get_unique_filename_fuel (S (links (fs w))) (fs w) filepath with
           | Some p => (Ok p, w)
           | None => (OutOfFuel, w)
           end.

(** [os.walk(top)] top-down, with the loop body of the caller run on
    every triple before the walk goes on: the sub-directories are
    listed when the walk reaches them, on the filesystem as the body
    left it. A directory that cannot be listed is passed over.
    The value is what the loop variable [dirs] holds when the loop is
    over: the list of the last triple, [None] when there was none.
    [fuel] bounds the depth. *)
Fixpoint os_walk (fuel : nat) (top : string)
    (body : string -> list string -> list string -> M world unit)
  : M world (option (list string)) :=
  match fuel with
  | 0 => lift OutOfFuel
  | S fuel' =>
      do w <- get;
      match Fs.scandir (fs w) top with
      | None => ret None
      | Some (dirs, files) =>
          body top dirs files;;
          fold_each dirs (Some dirs) (fun d last =>
            do below <- os_walk fuel' (OsPath.join top d) body;
            ret (match below with Some _ => below | None => last end))
      end
  end.

(** The body of [for file in files] in [move_files_to_top]. *)
Definition move_file (dir_path : string) (duplicate_suffix : bool)
    (root file : string) : M world unit :=
  let old_path := OsPath.join root file in
  let new_path := OsPath.join dir_path file in
  do e <- os_path_exists new_path;
  if negb e then shutil_move old_path new_path
  else if duplicate_suffix then
    do new_path <- get_unique_filename new_path;
    ret tt
  else
    print ("File " ++ new_path ++ " already exists");;
    shutil_move old_path new_path.

(** The body of [for root, dirs, files in os.walk(dir_path)]. *)
Definition move_files_to_top_body (dir_path : string) (duplicate_suffix : bool)
    (root : string) (dirs files : list string) : M world unit :=
  if String.eqb root dir_path then ret tt
  else for_each files (move_file dir_path duplicate_suffix root).

(** [move_files_to_top(dir_path, del_empty_dirs, duplicate_suffix)]. *)

Definition move_files_to_top (dir_path : string) (del_empty_dirs duplicate_suffix : bool)
  : M world unit :=
  do w0 <- get;
  os_walk (S (height (fs w0))) dir_path (move_files_to_top_body dir_path duplicate_suffix);;
  do w <- get;
  do names <- lift (Fs.listdir (fs w) dir_path);
  let dirs0 := List.filter (fun d => Fs.isdir (fs w) (OsPath.join dir_path d)) names in
  if del_empty_dirs then
    for_each dirs0 (fun d => shutil_rmtree (OsPath.join dir_path d))
  else ret tt.

(** *** [safe_rename] of the legacy copy *)

Section SafeRename.

(** [str(e)] for an exception, as [print(f"Error: {e}")] shows it. *)
Variable str_of_exn : exn -> string.

(** What callers pass as [old_fpath]: a [pathlib.Path], or the plain
    string [os.path.join] returns in the recursive call. *)
Inductive fpath : Type :=
| PathObj (p : string)
| PlainStr (p : string).

Definition os_rename (src dst : string) : M world unit :=
  fs_update (fun fs => Fs.rename fs src dst).

(** [try: os.rename(src, dst) except Exception as e: print(f"Error: {e}")]. *)
Definition rename_or_print (src dst : string) : M world unit :=
  try_except (os_rename src dst) (fun _ => true)
    (fun e => print ("Error: " ++ str_of_exn e)).

(** The body of [for file in files] in [safe_rename]. *)
Definition safe_rename_file (new_fpath : string) (find_unique_filename : bool)
    (root file : string) : M world unit :=
  let old_path := OsPath.join root file in
  let new_path := OsPath.join new_fpath file in
  do e <- os_path_exists new_path;
  if negb e then rename_or_print old_path new_path
  else if find_unique_filename then
    do new_path <- get_unique_filename new_path;
    rename_or_print old_path new_path
  else print ("File " ++ new_path ++ " already exists").

(** The body of [safe_rename], [self_call] standing for the function
    itself in the call at its end. [old_fpath.is_dir()] needs a
    [pathlib.Path]: on a plain string the attribute is missing. *)
Definition safe_rename_body (self_call : fpath -> string -> bool -> M world unit)
    (old_fpath : fpath) (new_fpath : string) (find_unique_filename : bool) : M world unit :=
  match old_fpath with
  | PlainStr _ => raise AttributeError
  | PathObj old =>
      do w <- get;
      if Fs.isdir (fs w) old then
        do e <- os_path_exists new_fpath;
        if negb e then rename_or_print old new_fpath
        else
          do dirs <- os_walk (S (height (fs w))) old (fun root dirs files =>
                       for_each files (safe_rename_file new_fpath find_unique_filename root));
          match dirs with
          | None => raise (NameError "dirs")
          | Some dirs =>
              for_each dirs (fun dir =>
                self_call (PlainStr (OsPath.join old dir)) (OsPath.join new_fpath dir)
                  find_unique_filename)
          end
      else ret tt
  end.

Fixpoint safe_rename_fuel (fuel : nat) : fpath -> string -> bool -> M world unit :=
  match fuel with
  | 0 => fun _ _ _ => lift OutOfFuel
  | S fuel' => safe_rename_body (safe_rename_fuel fuel')
  end.

(** [safe_rename(old_fpath, new_fpath, find_unique_filename)]: the call
    at the end passes the plain string [os.path.join] returns, so that
    the recursion goes one level deep at most. *)
Definition safe_rename : fpath -> string -> bool -> M world unit :=
  safe_rename_fuel 2.

End SafeRename.

(** A step keeps the files when it leaves the world with the same
    collection of file contents, whatever its outcome. *)
Definition keeps_files {A} (m : M world A) : Prop :=
  forall w, leaves (fs (snd (m w))) ≡ₚ leaves (fs w).

(** *** [safe_rename] of the current copy *)

Module Current.

(** [safe_rename(old_fpath, new_fpath, overwrite, check_duplicate)]:
    the two flags are not read. *)
Definition safe_rename (old_fpath new_fpath : string) (overwrite check_duplicate : bool)
  : M world unit :=
  do new_fpath <- get_unique_filename new_fpath;
  shutil_move old_fpath new_fpath.

End Current.

(** *** [remove_empty_dirs] and [get_tree_size] *)

Definition os_rmdir (p : string) : M world unit :=
  fs_update (fun fs => Fs.rmdir fs p).

(** The body of the loop of [remove_empty_dirs]. *)
Definition remove_empty_dirs_body (root : string) (dirs files : list string) : M world unit :=
  match dirs, files with
  | [], [] => os_rmdir root
  | _, _ => ret tt
  end.

Definition remove_empty_dirs (dir_path : string) : M world unit :=
  do w0 <- get;
  os_walk (S (height (fs w0))) dir_path remove_empty_dirs_body;;
  ret tt.






(** *** [rename_files_with_pattern] *)

Section Pattern.

(** [re.findall(pattern, s)]: the matches in order, [None] standing
    for a match that is a tuple of groups and not a string; or what
    [re] raises for the pattern. *)
Variable re_findall : string -> string -> result (list (option string)).

(** The body of [for file in files]. *)
Definition rename_file_with_pattern (pattern root file : string) : M world unit :=
  let ext := snd (OsPath.splitext file) in
  do digits <- lift (re_findall pattern file);
  match digits with
  | [] => ret tt
  | Some first :: _ =>
      let new_name := (first ++ ext)%string in
      let old_path := OsPath.join root file in
      let new_path := OsPath.join root new_name in
      do e <- os_path_exists new_path;
      if negb e then os_rename old_path new_path
      else print ("File " ++ new_path ++ " already exists")
  | None :: _ =>
      (* a tuple and a string do not add *)
      raise TypeError
  end.

Definition rename_files_with_pattern (dir_path pattern : string) : M world unit :=
  do w0 <- get;
  os_walk (S (height (fs w0))) dir_path
    (fun root dirs files => for_each files (rename_file_with_pattern pattern root));;
  ret tt.

End Pattern.

End Files.

(** ** HDF5 files as [h5py] shows them *)

Module H5.

Import Tree.

(** A numpy array: its shape and its elements in row-major order.
    Elements are integers here. *)
Record ndarray : Type := { shape : list nat; data : list Z }.

Definition count (shape : list nat) : nat := fold_right Nat.mul 1 shape.

(** A dataset: the array it holds and, for a chunked dataset, the
    bound [maxshape] puts on its first axis ([Some None]: unlimited);
    [None] for a dataset that is not chunked. *)
Record dataset : Type :=
  { ds_array : ndarray; ds_maxrows : option (option nat) }.

(** The root group of a file; groups are inner nodes, datasets leaves. *)
Abbreviation obj := (tree dataset).
Abbreviation Dataset := (@Leaf dataset).
Abbreviation Group := (@Node dataset).

(** The names a key walks through: HDF5 skips empty components and [.]. *)
Definition ordinary (c : string) : bool :=
  negb (String.eqb c "" || String.eqb c ".").

Definition components (key : string) : list string :=
  List.filter ordinary (split "/" key).

(** [key in file]. *)
Definition contains (f : obj) (key : string) : bool :=
  if String.eqb key "" then false
  else match lookup f (components key) with Some _ => true | None => false end.

(** [file[key]]. *)
Definition getitem (f : obj) (key : string) : result obj :=
  if String.eqb key "" then Raise ValueError
  else match lookup f (components key) with
       | Some o => Ok o
       | None => Raise KeyError
       end.

(** [del file[key]]. *)
Definition delitem (f : obj) (key : string) : result obj :=
  if String.eqb key "" then Raise ValueError
  else match components key with
       | [] => Raise ValueError
       | cs => match lookup f cs with
               | Some _ => Ok (remove f cs)
               | None => Raise KeyError
               end
       end.

(** Link a new dataset at [key]; the groups on the way are made when
    missing. The name has to be free. *)
Definition link_dataset (f : obj) (key : string) (d : dataset) : result obj :=
  if String.eqb key "" then Raise ValueError
  else match lookup f (components key) with
       | Some _ => Raise ValueError
       | None => match insert_deep f (components key) (Leaf d) with
                 | Some f' => Ok f'
                 | None => Raise ValueError
                 end
       end.

(** [file[key] = value]: a dataset of the shape of the value, not chunked. *)
Definition setitem (f : obj) (key : string) (value : ndarray) : result obj :=
  link_dataset f key {| ds_array := value; ds_maxrows := None |}.

(** [file.create_dataset(name, data=data[None], maxshape=(None,) + data.shape)]. *)
Definition create_dataset (f : obj) (name : string) (value : ndarray) : result obj :=
  link_dataset f name
    {| ds_array := {| shape := 1 :: shape value; data := data value |};
       ds_maxrows := Some None |}.

(** [dset.resize((rows, *dset.shape[1:]))], new rows hold the fill value. *)
Definition resize (d : dataset) (rows : nat) : result dataset :=
  match ds_maxrows d, shape (ds_array d) with
  | None, _ => Raise TypeError
  | Some _, [] => Raise TypeError
  | Some bound, _ :: rest =>
      if (match bound with Some m => Nat.ltb m rows | None => false end) then Raise ValueError
      else
        let n := rows * count rest in
        let old := data (ds_array d) in
        Ok {| ds_array := {| shape := rows :: rest;
                             data := firstn n old ++ repeat 0%Z (n - length old) |};
              ds_maxrows := ds_maxrows d |}
  end.


Definition len (a : ndarray) : option nat :=
  match shape a with
  | n :: _ => Some n
  | [] => None
  end.

(** [key] names nothing in [f] and a dataset can be made there. *)
Definition free (f : obj) (key : string) : bool :=
  negb (String.eqb key "") &&
  match lookup f (components key) with
  | None => reachable f (components key)
  | Some _ => false
  end.

(** [key] holds a dataset as [log_value] makes them, for records of
    shape [s]: the number of its records. *)
Definition records (f : obj) (key : string) (s : list nat) : option nat :=
  if String.eqb key "" then None
  else match components key, lookup f (components key) with
       | _ :: _, Some (Leaf d) =>
           match ds_maxrows d, shape (ds_array d) with
           | Some None, n :: rest => if bool_decide (rest = s) then Some n else None
           | _, _ => None
           end
       | _, _ => None
       end.



(** The arrays of an object, nested as the object is: every dataset
    read whole. *)
Fixpoint arrays (o : obj) : tree ndarray :=
  match o with
  | Leaf d => Leaf (ds_array d)
  | Node members => Node (map (fun e => (fst e, arrays (snd e))) members)
  end.

End H5.

(** ** [utils.py]: the logger *)

Module Utils.

Import Tree H5.

(** The names the import statements of [utils.py] bind at module level. *)
Definition module_globals : list string :=
  ["contextlib"; "datetime"; "logging"; "time"; "h5py"; "joblib"].

(** What the logger acts on: the HDF5 files by path, the modes of the
    [h5py.File] calls made so far, and the lines given to [logging]. *)
Record world : Type :=
  { files : gmap string obj; opens : list string; logged : list string }.

Definition set_file (path : string) (f : obj) (w : world) : world :=
  {| files := <[path := f]> (files w); opens := opens w; logged := logged w |}.

Definition logging_error (line : string) : M world unit :=
  fun w => (Ok tt, {| files := files w; opens := opens w; logged := logged w ++ [line] |}).

Definition time_sleep (seconds : nat) : M world unit := ret tt.

(** Reading a global name of the module. *)
Definition global (g : list string) (name : string) : M world unit :=
  if bool_decide (name ∈ g) then ret tt else raise (NameError name).

(** [with h5py.File(path, mode) as file: body(file)]. The handle is
    the path of the file it has open. *)
Definition with_file {A} (path mode : string) (body : string -> M world A) : M world A :=
  fun w =>
    let w1 := {| files := files w; opens := opens w ++ [mode]; logged := logged w |} in
    match files w !! path with
    | Some f =>
        if String.eqb mode "w" then body path (set_file path (Group []) w1)
        else body path w1
    | None =>
        if (String.eqb mode "r" || String.eqb mode "r+")%bool
        then (Raise FileNotFoundError, w1)
        else body path (set_file path (Group []) w1)
    end.

(** The world as [h5py.File(path, "a")] leaves it for the body. *)
Definition opened_for_append (path : string) (w : world) : world :=
  {| files := match files w !! path with
              | Some _ => files w
              | None => <[path := Node []]> (files w)
              end;
     opens := opens w ++ ["a"];
     logged := logged w |}.

(** Reading from, and writing to, the file a handle has open. *)
Definition read_file {A} (file : string) (op : obj -> result A) : M world A :=
  fun w => match files w !! file with
           | Some f => (op f, w)
           | None => (Raise ValueError, w)
           end.

Definition write_file (file : string) (op : obj -> result obj) : M world unit :=
  fun w => match files w !! file with
           | Some f => match op f with
                       | Ok f' => (Ok tt, set_file file f' w)
                       | Raise e => (Raise e, w)
                       | OutOfFuel => (OutOfFuel, w)
                       end
           | None => (Raise ValueError, w)
           end.

Definition is_BlockingIOError (e : exn) : bool :=
  match e with BlockingIOError => true | _ => false end.

Definition is_KeyError (e : exn) : bool :=
  match e with KeyError => true | _ => false end.

Section Logger.

(** [g]: the global names of the module when the call is made. *)
Variable g : list string.

(** [h5py]'s write of a value whose shape is not the shape of a
    record of the dataset (broadcasting): the elements written to
    the record, or the exception. *)
Variable broadcast : list nat -> ndarray -> result (list Z).

Definition check_if_in_h5 (path key : string) : M world bool :=
  global g "os";;
  do w <- get;
  if negb (bool_decide (is_Some (files w !! path))) then ret false
  else
    with_file path "r" (fun f =>
      try_except
        (read_file f (fun o => getitem o key);; ret true)
        is_KeyError
        (fun _ => ret false)).

(** The logger object: [self.filename]. *)
Record h5_logger : Type := { filename : string }.

Variable self : h5_logger.

Definition _init_dataset_once (file dataset_name : string) (data : ndarray) : M world unit :=
  write_file file (fun o => create_dataset o dataset_name data).

Definition _init_dataset (file dataset_name : string) (data : ndarray) : M world unit :=
  try_except
    (_init_dataset_once file dataset_name data)
    is_BlockingIOError
    (fun _ =>
       logging_error "BlockingIOError: Retrying";;
       time_sleep 1;;
       _init_dataset_once file dataset_name data).

(** [file[dataset_name].resize((file[dataset_name].shape[0] + 1,
    *file[dataset_name].shape[1:]))]. *)
Definition grow_by_one (o : obj) (dataset_name : string) : result obj :=
  match getitem o dataset_name with
  | Ok (Leaf d) =>
      match shape (ds_array d) with
      | [] => Raise IndexError
      | rows :: _ =>
          match resize d (rows + 1) with
          | Ok d' => Ok (insert o (components dataset_name) (Leaf d'))
          | Raise e => Raise e
          | OutOfFuel => OutOfFuel
          end
      end
  | Ok (Node _) => Raise AttributeError
  | Raise e => Raise e
  | OutOfFuel => OutOfFuel
  end.

(** [file[dataset_name][-1] = data]. *)
Definition write_last (o : obj) (dataset_name : string) (value : ndarray) : result obj :=
  match getitem o dataset_name with
  | Ok (Leaf d) =>
      match shape (ds_array d) with
      | [] => Raise ValueError
      | 0 :: _ => Raise IndexError
      | S n :: rest =>
          let row := if bool_decide (shape value = rest) then Ok (data value)
                     else broadcast rest value in
          match row with
          | Ok elems =>
              let kept := firstn (n * count rest) (data (ds_array d)) in
              Ok (insert o (components dataset_name)
                    (Leaf {| ds_array := {| shape := S n :: rest; data := kept ++ elems |};
                             ds_maxrows := ds_maxrows d |}))
          | Raise e => Raise e
          | OutOfFuel => OutOfFuel
          end
      end
  | Ok (Node _) => Raise TypeError
  | Raise e => Raise e
  | OutOfFuel => OutOfFuel
  end.

Definition _append_to_dataset_once (file dataset_name : string) (data : ndarray) : M world unit :=
  write_file file (fun o => grow_by_one o dataset_name);;
  write_file file (fun o => write_last o dataset_name data).

Definition _append_to_dataset (file dataset_name : string) (data : ndarray) : M world unit :=
  try_except
    (_append_to_dataset_once file dataset_name data)
    is_BlockingIOError
    (fun _ =>
       logging_error "BlockingIOError: Retrying";;
       time_sleep 1;;
       _append_to_dataset_once file dataset_name data).

Definition log_attribute (key : string) (value : ndarray) (replace : bool) : M world unit :=
  do present <- check_if_in_h5 (filename self) key;
  if present then
    if negb replace then
      (* the exception object is built and dropped: there is no [raise] *)
      ret tt
    else
      with_file (filename self) "a" (fun file =>
        write_file file (fun o => delitem o key);;
        write_file file (fun o => setitem o key value))
  else
    with_file (filename self) "a" (fun file =>
      write_file file (fun o => setitem o key value)).

Definition log_value_in (file data_key : string) (data_value : ndarray) : M world unit :=
  do present <- read_file file (fun o => Ok (contains o data_key));
  if negb present then _init_dataset file data_key data_value
  else _append_to_dataset file data_key data_value.

(** [log_value(data_key, data_value, file=None)]: both branches of
    the test on [file] run the same statements on the handle. *)
Definition log_value (data_key : string) (data_value : ndarray) (file : option string)
  : M world unit :=
  match file with
  | Some file => log_value_in file data_key data_value
  | None => with_file (filename self) "a" (fun file => log_value_in file data_key data_value)
  end.


(** [list(group.keys())]. *)
Definition keys (o : obj) : result (list string) :=
  match o with
  | Node members => Ok (map fst members)
  | Leaf _ => Raise AttributeError
  end.

Definition get_keys (args : list string) : M world (list string) :=
  let largs := length args in
  if negb (Nat.leb largs 1)
  then raise (AssertionError ("Expected 0 or 1 arguments, received " ++ str_of_nat largs))
  else
    match args with
    | [] => with_file (filename self) "r" (fun file => read_file file keys)
    | arg0 :: _ =>
        with_file (filename self) "r" (fun file =>
          read_file file (fun o =>
            match getitem o arg0 with
            | Ok o' => keys o'
            | Raise e => Raise e
            | OutOfFuel => OutOfFuel
            end))
    end.

(** What the log file holds; a file that is not there yet is
    created empty by the first call that opens it for appending. *)
Definition content (w : world) : obj :=
  match files w !! filename self with
  | Some f => f
  | None => Group []
  end.

Definition check_key (key : string) : M world bool :=
  check_if_in_h5 (filename self) key.

(** The key built in the loop: [f"{base_key}_{counter}{suffix}"]. *)
Definition candidate_key (base_key suffix : string) (counter : nat) : string :=
  base_key ++ "_" ++ str_of_nat counter ++ suffix.

(** What a candidate puts after the base key, before the suffix. *)
Definition counter_tail (n : nat) : string := "_" ++ str_of_nat n.

(** The [while self.check_key(key)] loop; [fuel] bounds the number
    of tests. *)
Fixpoint unique_key_loop (fuel : nat) (base_key suffix : string) (counter : nat) (key : string)
  : M world string :=
  match fuel with
  | 0 => lift OutOfFuel
  | S fuel' =>
      do taken <- check_key key;
      if taken then
        let counter := counter + 1 in
        let key := candidate_key base_key suffix counter in
        unique_key_loop fuel' base_key suffix counter key
      else ret key
  end.

(** The two names the test on the trailing separator binds. *)
Definition stem_and_suffix (base_key : string) : string * string :=
  if endswith_char base_key "/" then (drop_last base_key, "/") else (base_key, "").

Definition get_unique_key_fuel (fuel : nat) (base_key : string) : M world string :=
  let counter := 0 in
  let key := base_key in
  let '(base_key, suffix) := stem_and_suffix base_key in
  unique_key_loop fuel base_key suffix counter key.

(** [get_unique_key(base_key)]: the loop may test the base key and one
    more candidate than the log file has links. *)
Definition get_unique_key (base_key : string) : M world string :=
  do w <- get;
  get_unique_key_fuel (S (S (links (content w)))) base_key.

(** What [check_key] answers once it runs: whether the file is there
    and the key names something in it. *)
Definition in_use (w : world) (key : string) : bool :=
  match files w !! filename self with
  | Some f => contains f key
  | None => false
  end.

(** [log_dict(data_dict)]: the items of the dictionary, in its order,
    logged through one handle. *)
Definition log_dict (data_dict : list (string * ndarray)) : M world unit :=
  with_file (filename self) "a" (fun file =>
    for_each data_dict (fun item => log_value (fst item) (snd item) (Some file))).

(** [file[k][()]]. *)
Definition read_whole (o : obj) (k : string) : result ndarray :=
  match getitem o k with
  | Ok (Leaf d) => Ok (ds_array d)
  | Ok (Node _) => Raise TypeError
  | Raise e => Raise e
  | OutOfFuel => OutOfFuel
  end.

(** [get_multiple(given_keys)]: the dictionary of the comprehension. *)
Definition get_multiple (given_keys : list string) : M world (gmap string ndarray) :=
  with_file (filename self) "r" (fun file =>
    fold_each given_keys ∅ (fun k acc =>
      do v <- read_file file (fun o => read_whole o k);
      ret (<[k := v]> acc))).

Definition rm_key (key : string) : M world unit :=
  with_file (filename self) "r+" (fun file =>
    write_file file (fun o => delitem o key)).

(** [file[group_name].keys()] and [file[group_name][key]]. *)
Definition group_keys (o : obj) (group_name : string) : result (list string) :=
  match getitem o group_name with
  | Ok o' => keys o'
  | Raise e => Raise e
  | OutOfFuel => OutOfFuel
  end.

Definition member (o : obj) (group_name key : string) : result obj :=
  match getitem o group_name with
  | Ok o' => getitem o' key
  | Raise e => Raise e
  | OutOfFuel => OutOfFuel
  end.

(** [get_group(group_name)]: the dictionary [results], in the order
    of its keys. A member is read once here where the source reads it
    for each [isinstance] test and again for its value. The call for
    a group inside opens the file again. [fuel] bounds the depth. *)
Fixpoint get_group_fuel (fuel : nat) (group_name : string)
  : M world (list (string * tree ndarray)) :=
  match fuel with
  | 0 => lift OutOfFuel
  | S fuel' =>
      with_file (filename self) "r" (fun file =>
        do ks <- read_file file (fun o => group_keys o group_name);
        fold_each ks [] (fun key results =>
          do m <- read_file file (fun o => member o group_name key);
          match m with
          | Leaf d => ret (assoc_set key (Leaf (ds_array d)) results)
          | Node _ =>
              do below <- get_group_fuel fuel' (group_name ++ "/" ++ key);
              ret (assoc_set key (Node below) results)
          end))
  end.

(** The recursion goes as deep as the groups of the file nest. *)
Definition get_group (group_name : string) : M world (list (string * tree ndarray)) :=
  do w <- get;
  get_group_fuel (S (height (content w))) group_name.

End Logger.

(** The world with another record of the modes files were opened in. *)
Definition set_opens (o : list string) (w : world) : world :=
  {| files := files w; opens := o; logged := logged w |}.

(** Code that neither reads nor writes that record. *)
Definition opens_blind {A} (m : M world A) : Prop :=
  forall o w, m (set_opens o w) = (fst (m w), set_opens o (snd (m w))).

(** Code under which a property of the world, once true, stays true,
    whether the code returns or raises. *)
Definition stable {A} (P : world -> Prop) (m : M world A) : Prop :=
  forall w, P w -> P (snd (m w)).

End Utils.

(** ** [utils.py]: [tqdm_joblib] *)

Module Joblib.

(** A class that can be bound to [joblib.parallel.BatchCompletionCallBack]:
    the one joblib ships, a class some other code installed, or the
    subclass [tqdm_joblib] makes for a progress bar. *)
Inductive callback_class : Type :=
| BatchCompletionCallBack_stock
| Foreign (id : nat)
| TqdmBatchCompletionCallback (tqdm_object : nat) (base : callback_class).

(** A [tqdm] bar: its count and whether [close] was called. *)
Record tqdm : Type := { n : nat; closed : bool }.

(** The process-wide state: the global of [joblib.parallel] and the
    progress bars by identity. *)
Record world : Type :=
  { BatchCompletionCallBack : callback_class; bars : nat -> tqdm }.

Definition set_callback (c : callback_class) : M world unit :=
  fun w => (Ok tt, {| BatchCompletionCallBack := c; bars := bars w |}).

Definition set_bar (t : nat) (b : tqdm) (w : world) : world :=
  {| BatchCompletionCallBack := BatchCompletionCallBack w;
     bars := fun t' => if Nat.eqb t' t then b else bars w t' |}.

(** [tqdm_object.update(n)] and [tqdm_object.close()]. *)
Definition tqdm_update (t : nat) (k : nat) : M world unit :=
  fun w => (Ok tt, set_bar t {| n := n (bars w t) + k; closed := closed (bars w t) |} w).

Definition tqdm_close (t : nat) : M world unit :=
  fun w => (Ok tt, set_bar t {| n := n (bars w t); closed := true |} w).

(** Calling an instance of the class [c] for a batch of [batch_size]
    tasks: [TqdmBatchCompletionCallback.__call__] updates the bar and
    goes on with the class it extends. *)
Fixpoint call_callback (c : callback_class) (batch_size : nat) : M world unit :=
  match c with
  | TqdmBatchCompletionCallback tqdm_object base =>
      tqdm_update tqdm_object batch_size;;
      call_callback base batch_size
  | _ => ret tt
  end.

(** What [joblib.Parallel] does when a batch completes: it calls an
    instance of the class the global names at that time. *)
Definition batch_completed (batch_size : nat) : M world unit :=
  do w <- get;
  call_callback (BatchCompletionCallBack w) batch_size.

(** [try: body finally: cleanup]: the cleanup runs when the body
    returns and when it raises, and the outcome of the body stands
    unless the cleanup raises itself. *)
Definition try_finally {A} (body : M world A) (cleanup : M world unit) : M world A :=
  fun w => match body w with
           | (Ok a, w1) => match cleanup w1 with
                           | (Ok _, w2) => (Ok a, w2)
                           | (Raise e, w2) => (Raise e, w2)
                           | (OutOfFuel, w2) => (OutOfFuel, w2)
                           end
           | (Raise e, w1) => match cleanup w1 with
                              | (Ok _, w2) => (Raise e, w2)
                              | (Raise e', w2) => (Raise e', w2)
                              | (OutOfFuel, w2) => (OutOfFuel, w2)
                              end
           | (OutOfFuel, w1) => (OutOfFuel, w1)
           end.

(** [with tqdm_joblib(tqdm_object) as progress_bar: body(progress_bar)].
    The generator runs to its [yield], the body of the [with] runs in
    place of the [yield], and [contextlib] resumes the generator, by
    [next] or by [throw], so that the [finally] block runs. *)
Definition tqdm_joblib {A} (tqdm_object : nat) (body : nat -> M world A) : M world A :=
  do w <- get;
  let old_batch_callback := BatchCompletionCallBack w in
  set_callback (TqdmBatchCompletionCallback tqdm_object old_batch_callback);;
  try_finally
    (body tqdm_object)
    (set_callback old_batch_callback;;
     tqdm_close tqdm_object).

(** How many classes of the chain [c] report to the bar [t]. *)
Fixpoint reports_to (t : nat) (c : callback_class) : nat :=
  match c with
  | TqdmBatchCompletionCallback tqdm_object base =>
      (if Nat.eqb tqdm_object t then 1 else 0) + reports_to t base
  | _ => 0
  end.

(** What [joblib.Parallel] does for the batches of a run. *)
Definition run_batches (batch_sizes : list nat) : M world unit :=
  for_each batch_sizes batch_completed.

End Joblib.


(** ** The naming strategy in the words of the specification *)

Module Strategy.

(** Section 4.2: try the counters [n], [n + 1], ... in turn and return
    the first candidate that is not in use. *)
Fixpoint first_unused_from (used : string -> bool) (cand : nat -> string)
    (fuel n : nat) : option string :=
  match fuel with
  | 0 => None
  | S fuel' =>
      if used (cand n) then first_unused_from used cand fuel' (S n)
      else Some (cand n)
  end.

(** A name that is not in use is returned unchanged; otherwise the
    counter starts at 1. *)
Definition make_unique (used : string -> bool) (cand : nat -> string)
    (fuel : nat) (base : string) : option string :=
  if used base then first_unused_from used cand fuel 1 else Some base.

End Strategy.

(** ** States used in the scenarios *)

Module Scenario.

Import Tree.

(** [x.txt] alone in the working directory. *)
Definition single_file : Files.world :=
  {| Files.fs := Fs.Dir [("x.txt", Fs.File "A")]; Files.out := [] |}.

(** Section 8, collision scenario: [root/x.txt] and [root/sub/x.txt]. *)
Definition collision : Files.world :=
  {| Files.fs :=
       Fs.Dir [("root", Fs.Dir [("x.txt", Fs.File "A");
                                ("sub", Fs.Dir [("x.txt", Fs.File "B")])])];
     Files.out := [] |}.

(** A log file in which [k] holds the attribute [1, 2]. *)
Definition logger : Utils.h5_logger := {| Utils.filename := "log.h5" |}.

Definition one_two : H5.ndarray := {| H5.shape := [2]; H5.data := [1; 2]%Z |}.
Definition three_four : H5.ndarray := {| H5.shape := [2]; H5.data := [3; 4]%Z |}.

Definition with_attribute : Utils.world :=
  {| Utils.files :=
       {[ "log.h5" := H5.Group [("k", H5.Dataset {| H5.ds_array := one_two;
                                                    H5.ds_maxrows := None |})] ]};
     Utils.opens := [];
     Utils.logged := [] |}.

(** A log file in which the group [g] holds the dataset [g/a]. *)
Definition with_group : Utils.world :=
  {| Utils.files :=
       {[ "log.h5" :=
            H5.Group [("g", H5.Group [("a", H5.Dataset
                 {| H5.ds_array := {| H5.shape := [1; 2]; H5.data := [1; 2]%Z |};
                    H5.ds_maxrows := Some None |})])] ]};
     Utils.opens := [];
     Utils.logged := [] |}.

(** [h5py] refusing every value that is not of the shape of a record. *)
Definition no_broadcast : list nat -> H5.ndarray -> result (list Z) :=
  fun _ _ => Raise TypeError.

(** No progress bar touched, a class of some other code installed. *)
Definition patched_before : Joblib.world :=
  {| Joblib.BatchCompletionCallBack := Joblib.Foreign 7;
     Joblib.bars := fun _ => {| Joblib.n := 0; Joblib.closed := false |} |}.

(** The paths of the regular files of a tree, with their contents. *)
Fixpoint files_under (prefix : string) (t : Fs.node) : list (string * string) :=
  match t with
  | Leaf content => [(prefix, content)]
  | Node es =>
      flat_map (fun e => files_under (OsPath.join prefix (fst e)) (snd e)) es
  end.

Definition all_files (w : Files.world) : list (string * string) :=
  files_under "" (Files.fs w).

End Scenario.

(** * Properties *)

Import Tree.

(** ** Strings *)

Section StringFacts.

#[local] Arguments String.append !_ _ / : simpl nomatch.

Lemma take_drop (i : nat) (s : string) : take i s +:+ drop i s = s.
Proof.
  revert s; induction i as [|i IH]; intros [|a s]; simpl; try reflexivity.
  now rewrite IH.
Qed.

Lemma str_length_app (s t : string) :
  String.length (s +:+ t) = String.length s + String.length t.
Proof. induction s as [|a s IH]; simpl; [reflexivity | now rewrite IH]. Qed.

Lemma app_assoc_s (s t u : string) : (s +:+ t) +:+ u = s +:+ (t +:+ u).
Proof. induction s as [|a s IH]; simpl; [reflexivity | now rewrite IH]. Qed.

Lemma app_inv_tail_s (s1 s2 r : string) : s1 +:+ r = s2 +:+ r -> s1 = s2.
Proof.
  revert s2; induction s1 as [|a s1 IH]; intros [|b s2] H; simpl in *.
  - reflexivity.
  - apply (f_equal String.length) in H. simpl in H. rewrite str_length_app in H. lia.
  - apply (f_equal String.length) in H. simpl in H. rewrite str_length_app in H. lia.
  - injection H as -> H. f_equal. now apply IH.
Qed.

Lemma has_char_app (c : ascii) (s t : string) :
  has_char c (s +:+ t) = (has_char c s || has_char c t)%bool.
Proof.
  induction s as [|a s IH]; simpl; [reflexivity|].
  rewrite IH. now rewrite orb_assoc.
Qed.

Lemma split_nosep (c : ascii) (t : string) :
  has_char c t = false -> split c t = [t].
Proof.
  induction t as [|a t IH]; simpl; [reflexivity|].
  intros H. apply orb_false_iff in H as [Ha Ht].
  rewrite Ha, (IH Ht). reflexivity.
Qed.

Lemma split_not_nil (c : ascii) (s : string) : split c s <> [].
Proof.
  induction s as [|a s IH]; simpl; [discriminate|].
  destruct (Ascii.eqb a c); [discriminate|].
  destruct (split c s); [contradiction | discriminate].
Qed.

(** Appending text without separator to a string only extends its
    last component. *)
Lemma split_app_nosep (c : ascii) (s t : string) :
  has_char c t = false ->
  split c (s +:+ t) = removelast (split c s) ++ [List.last (split c s) "" +:+ t].
Proof.
  intros Ht. induction s as [|a s IH]; simpl.
  - now apply split_nosep.
  - destruct (Ascii.eqb a c).
    + rewrite IH. pose proof (split_not_nil c s).
      destruct (split c s) as [|w ws]; [contradiction|]. reflexivity.
    + rewrite IH. pose proof (split_not_nil c s).
      destruct (split c s) as [|w ws]; [contradiction|].
      destruct ws as [|w' ws]; reflexivity.
Qed.

Lemma rfind_go_range (c : ascii) (s : string) (i last : Z) :
  rfind_go c s i last = last \/ (i <= rfind_go c s i last)%Z.
Proof.
  revert i last; induction s as [|a s IH]; intros i last; simpl; [now left|].
  destruct (Ascii.eqb a c).
  - destruct (IH (i + 1)%Z i) as [-> | H]; right; lia.
  - destruct (IH (i + 1)%Z last) as [-> | H]; [now left | right; lia].
Qed.

(** Nothing after the index [rfind] returns is the character sought. *)
Lemma rfind_go_after (c : ascii) (s : string) (i last : Z) (k : nat) :
  (last < i)%Z ->
  (rfind_go c s i last < i + Z.of_nat k)%Z ->
  has_char c (drop k s) = false.
Proof.
  revert i last k; induction s as [|a s IH]; intros i last k Hl H.
  - destruct k; reflexivity.
  - simpl in H. destruct k as [|k]; simpl.
    + destruct (Ascii.eqb a c) eqn:E.
      * destruct (rfind_go_range c s (i + 1) i) as [Hr | Hr]; lia.
      * simpl. apply (IH (i + 1)%Z last 0); [lia|]. simpl. lia.
    + destruct (Ascii.eqb a c);
        [apply (IH (i + 1)%Z i k) | apply (IH (i + 1)%Z last k)]; lia.
Qed.

(** The index [rfind] returns holds the character sought. *)
Lemma rfind_go_at (c : ascii) (s : string) (i last : Z) :
  (last < i)%Z ->
  (i <= rfind_go c s i last)%Z ->
  exists t, drop (Z.to_nat (rfind_go c s i last - i)) s = String c t.
Proof.
  revert i last; induction s as [|a s IH]; intros i last Hl Hr; simpl in *; [lia|].
  destruct (Ascii.eqb_spec a c) as [->|Hne].
  - destruct (rfind_go_range c s (i + 1) i) as [E | Hge].
    + rewrite E, Z.sub_diag. simpl. eauto.
    + destruct (IH (i + 1)%Z i ltac:(lia) Hge) as [t Ht].
      replace (Z.to_nat (rfind_go c s (i + 1) i - i))
        with (S (Z.to_nat (rfind_go c s (i + 1) i - (i + 1)))) by lia.
      simpl. eauto.
  - destruct (rfind_go_range c s (i + 1) last) as [E | Hge]; [lia|].
    destruct (IH (i + 1)%Z last ltac:(lia) Hge) as [t Ht].
    replace (Z.to_nat (rfind_go c s (i + 1) last - i))
      with (S (Z.to_nat (rfind_go c s (i + 1) last - (i + 1)))) by lia.
    simpl. eauto.
Qed.

Lemma rfind_after (c : ascii) (s : string) (k : nat) :
  (rfind c s < Z.of_nat k)%Z -> has_char c (drop k s) = false.
Proof. intros H. apply (rfind_go_after c s 0 (-1)); [lia | exact H]. Qed.

(** [os.path.splitext] cuts the path in two, and no separator is in
    the extension. *)
Lemma splitext_spec (p name ext : string) :
  OsPath.splitext p = (name, ext) ->
  name +:+ ext = p /\ has_char OsPath.sep ext = false.
Proof.
  unfold OsPath.splitext.
  destruct (Z.ltb_spec (rfind OsPath.sep p) (rfind OsPath.extsep p)) as [Hlt|Hge].
  - destruct (OsPath.has_stem _ _).
    + intros [= <- <-]. split; [apply take_drop|].
      apply rfind_after.
      assert (-1 <= rfind OsPath.sep p)%Z.
      { unfold rfind. destruct (rfind_go_range OsPath.sep p 0 (-1)); lia. }
      rewrite Z2Nat.id; lia.
    + intros [= <- <-]. split; [|reflexivity].
      clear. induction p; simpl; [reflexivity | now f_equal].
  - intros [= <- <-]. split; [|reflexivity].
    clear. induction p; simpl; [reflexivity | now f_equal].
Qed.

(** An extension that is not empty starts with the dot. *)
Lemma splitext_dot (p name ext : string) :
  OsPath.splitext p = (name, ext) ->
  ext = "" \/ exists rest, ext = String "." rest.
Proof.
  unfold OsPath.splitext.
  destruct (Z.ltb_spec (rfind OsPath.sep p) (rfind OsPath.extsep p)) as [Hlt|Hge];
    [|intros [= <- <-]; now left].
  destruct (OsPath.has_stem _ _); [|intros [= <- <-]; now left].
  intros [= <- <-]. right.
  assert (-1 <= rfind OsPath.sep p)%Z.
  { unfold rfind. destruct (rfind_go_range OsPath.sep p 0 (-1)); lia. }
  destruct (rfind_go_at OsPath.extsep p 0 (-1)) as [t Ht]; [lia | unfold rfind in *; lia |].
  rewrite Z.sub_0_r in Ht. exists t. exact Ht.
Qed.

Lemma pretty_N_go_no_sep (x : N) (s : string) :
  has_char "/" s = false -> has_char "/" (pretty_N_go x s) = false.
Proof.
  revert s. induction (N.lt_wf_0 x) as [x _ IH]; intros s Hs.
  assert (x = 0 \/ 0 < x)%N as [->|Hx] by lia.
  - now rewrite pretty_N_go_0.
  - rewrite pretty_N_go_step by done. apply IH.
    + now apply N.div_lt.
    + simpl. rewrite Hs. unfold pretty_N_char.
      repeat case_match; reflexivity.
Qed.

Lemma str_of_nat_no_sep (n : nat) : has_char "/" (str_of_nat n) = false.
Proof.
  unfold str_of_nat, pretty, pretty_nat, pretty, pretty_N.
  case_decide; [reflexivity|]. now apply pretty_N_go_no_sep.
Qed.

Lemma str_of_nat_inj (n m : nat) : str_of_nat n = str_of_nat m -> n = m.
Proof. apply pretty_nat_inj. Qed.

End StringFacts.

(** ** Trees *)

Section TreeFacts.

Context {A : Type}.
Implicit Types (t : tree A) (cs : list string).

Lemma lookup_snoc t cs (c : string) :
  lookup t (cs ++ [c]) =
  match lookup t cs with
  | Some (Node es) => assoc c es
  | _ => None
  end.
Proof.
  revert t; induction cs as [|c' cs IH]; intros t; simpl.
  - destruct t as [a|es]; [reflexivity|]. now destruct (assoc c es).
  - destruct t as [a|es]; [reflexivity|].
    destruct (assoc c' es) as [m|]; [apply IH | reflexivity].
Qed.

Lemma assoc_In {B} (c : string) (es : list (string * B)) (m : B) :
  assoc c es = Some m -> In c (map fst es) /\ In (c, m) es.
Proof.
  induction es as [|[k v] es IH]; simpl; [discriminate|].
  destruct (String.eqb_spec c k) as [->|Hne].
  - intros [= ->]. split; now left.
  - intros H. destruct (IH H). split; now right.
Qed.

Lemma links_child (es : list (string * tree A)) (c : string) (m : tree A) :
  In (c, m) es -> S (links m) <= links (Node es).
Proof.
  simpl. induction es as [|e es IH]; simpl; [contradiction|].
  intros [-> | H]; simpl; [lia|]. specialize (IH H). lia.
Qed.

Lemma links_length (es : list (string * tree A)) : length es <= links (Node es).
Proof. simpl. induction es as [|e es IH]; simpl; lia. Qed.

(** A directory reached inside a tree has no more entries than the
    tree has links. *)
Lemma lookup_links t cs (es : list (string * tree A)) :
  lookup t cs = Some (Node es) -> length es <= links t.
Proof.
  revert t; induction cs as [|c cs IH]; intros t; simpl.
  - intros [= ->]. apply links_length.
  - destruct t as [a|es0]; [discriminate|].
    destruct (assoc c es0) as [m|] eqn:E; [|discriminate].
    intros H. apply IH in H. apply assoc_In in E as [_ E].
    apply links_child in E. lia.
Qed.

Lemma assoc_set_same {B} (c : string) (v : B) (es : list (string * B)) :
  assoc c (assoc_set c v es) = Some v.
Proof.
  induction es as [|[k v'] es IH]; simpl.
  - now rewrite String.eqb_refl.
  - destruct (String.eqb c k) eqn:E; simpl; [now rewrite String.eqb_refl|].
    now rewrite E.
Qed.

Lemma lookup_insert_same t cs (x y : tree A) :
  cs <> [] -> lookup t cs = Some y -> lookup (insert t cs x) cs = Some x.
Proof.
  revert t; induction cs as [|c cs IH]; intros t Hne; [contradiction|].
  destruct t as [a|es]; [discriminate|].
  cbn [lookup].
  destruct (assoc c es) as [m|] eqn:E; [|discriminate].
  destruct cs as [|c' cs].
  - intros _. cbn [insert lookup]. now rewrite assoc_set_same.
  - intros H. cbn [insert]. rewrite E. cbn [lookup]. rewrite assoc_set_same.
    apply IH; [discriminate | exact H].
Qed.

Lemma insert_deep_cons (es : list (string * tree A)) (c c' : string) cs (x : tree A) :
  insert_deep (Node es) (c :: c' :: cs) x =
  match insert_deep (match assoc c es with Some m => m | None => Node [] end) (c' :: cs) x with
  | Some m' => Some (Node (assoc_set c m' es))
  | None => None
  end.
Proof. reflexivity. Qed.

Lemma reachable_cons (es : list (string * tree A)) (c c' : string) cs :
  reachable (Node es) (c :: c' :: cs) =
  reachable (match assoc c es with Some m => m | None => Node [] end) (c' :: cs).
Proof. reflexivity. Qed.

Lemma insert_deep_reachable t cs (x : tree A) :
  reachable t cs = true ->
  exists t', insert_deep t cs x = Some t' /\ lookup t' cs = Some x.
Proof.
  revert t; induction cs as [|c cs IH]; intros t; [discriminate|].
  destruct t as [a|es]; [discriminate|].
  destruct cs as [|c' cs].
  - intros _. eexists. split; [reflexivity|]. simpl. now rewrite assoc_set_same.
  - rewrite reachable_cons. intros H.
    destruct (IH _ H) as (m' & Hm' & Hl).
    exists (Node (assoc_set c m' es)). split.
    + rewrite insert_deep_cons. now rewrite Hm'.
    + cbn [lookup]. now rewrite assoc_set_same.
Qed.


End TreeFacts.

(** ** The search for a name that is not in use *)

Section FirstUnused.

Import Strategy.

Variable used : string -> bool.
Variable cand : nat -> string.

(** The search stops at the least free counter when there is one
    within the bound. *)
Lemma first_unused_from_least (fuel n m : nat) :
  n <= m < n + fuel ->
  used (cand m) = false ->
  (forall k, n <= k < m -> used (cand k) = true) ->
  first_unused_from used cand fuel n = Some (cand m).
Proof.
  revert n; induction fuel as [|fuel IH]; intros n Hm Hfree Hbusy; [lia|].
  simpl. destruct (used (cand n)) eqn:E.
  - assert (n <> m) by (intros ->; congruence).
    apply IH; [lia | assumption | intros k Hk; apply Hbusy; lia].
  - assert (n = m) as ->; [|reflexivity].
    destruct (Nat.eq_dec n m) as [|Hne]; [assumption|].
    rewrite Hbusy in E by lia. discriminate.
Qed.

Lemma least_free (P : nat -> bool) (n len : nat) :
  (exists k, n <= k < n + len /\ P k = false) ->
  exists m, n <= m < n + len /\ P m = false /\ forall k, n <= k < m -> P k = true.
Proof.
  revert n; induction len as [|len IH]; intros n [k [Hk Hf]]; [lia|].
  destruct (P n) eqn:E.
  - destruct (IH (S n)) as [m (Hm & Hfm & Hb)].
    { exists k. split; [|assumption].
      assert (k <> n) by (intros ->; congruence). lia. }
    exists m. split; [lia|]. split; [assumption|].
    intros j Hj. destruct (Nat.eq_dec j n) as [->|]; [assumption | apply Hb; lia].
  - exists n. split; [lia|]. split; [assumption|]. intros; lia.
Qed.

(** Candidates in use are told apart by a name found in a fixed,
    finite list: one more candidate than the list has names is enough. *)
Variable key : nat -> string.
Variable names : list string.
Hypothesis key_inj : forall n m, key n = key m -> n = m.
Hypothesis used_in : forall n, used (cand n) = true -> In (key n) names.

Lemma some_free (n : nat) :
  exists k, n <= k < n + S (length names) /\ used (cand k) = false.
Proof.
  destruct (forallb (fun k => used (cand k)) (seq n (S (length names)))) eqn:E.
  - exfalso. rewrite forallb_forall in E.
    assert (length (map key (seq n (S (length names)))) <= length names) as Hlen.
    { apply NoDup_incl_length.
      - apply NoDup_ListNoDup, NoDup_fmap_2_strong; [|apply NoDup_seq].
        intros; now apply key_inj.
      - intros x Hx. apply in_map_iff in Hx as (k & <- & Hk).
        apply used_in, E, Hk. }
    rewrite length_map, length_seq in Hlen. lia.
  - apply not_true_iff_false in E.
    destruct (List.Forall_Exists_dec (fun k => used (cand k) = true)
                (fun k => bool_dec (used (cand k)) true)
                (seq n (S (length names)))) as [Hall | Hex].
    + exfalso. apply E. apply forallb_forall.
      now apply List.Forall_forall.
    + apply List.Exists_exists in Hex as (k & Hk & Hf).
      apply in_seq in Hk. exists k. split; [lia|].
      now apply not_true_iff_false.
Qed.

Lemma first_unused_from_total (n : nat) :
  exists m, n <= m /\
    first_unused_from used cand (S (length names)) n = Some (cand m) /\
    used (cand m) = false /\
    forall k, n <= k < m -> used (cand k) = true.
Proof.
  destruct (least_free (fun k => used (cand k)) n (S (length names)) (some_free n))
    as (m & Hm & Hf & Hb).
  exists m. split; [lia|]. split; [|split; assumption].
  now apply first_unused_from_least.
Qed.

Lemma first_unused_from_more_fuel (fuel fuel' n : nat) (q : string) :
  first_unused_from used cand fuel n = Some q ->
  fuel <= fuel' ->
  first_unused_from used cand fuel' n = Some q.
Proof.
  revert fuel' n; induction fuel as [|fuel IH]; intros fuel' n; [discriminate|].
  intros H Hle. destruct fuel' as [|fuel']; [lia|].
  simpl in *. destruct (used (cand n)); [|assumption].
  apply IH; [assumption | lia].
Qed.

End FirstUnused.

(** ** [get_unique_filename] *)

Section UniqueFilenameFacts.

Import Files Strategy.

#[local] Arguments String.append !_ _ / : simpl nomatch.

Lemma canon_snoc (fs : Fs.node) (acc cs : list string) (c : string) :
  String.eqb c "" = false -> String.eqb c "." = false -> String.eqb c ".." = false ->
  Fs.canon fs acc (cs ++ [c]) =
  match Fs.canon fs acc cs with
  | Some r => Some (r ++ [c])
  | None => None
  end.
Proof.
  intros H1 H2 H3. revert acc; induction cs as [|c' cs IH]; intros acc; simpl.
  - now rewrite H1, H2, H3.
  - destruct (String.eqb c' "" || String.eqb c' ".")%bool.
    + destruct (lookup_node fs (rev acc)); [apply IH | reflexivity].
    + destruct (String.eqb c' "..").
      * destruct (lookup_node fs (rev acc)); [apply IH | reflexivity].
      * apply IH.
Qed.

Lemma candidate_split (name ext : string) (n : nat) :
  candidate name ext n = name +:+ counter_ext ext n.
Proof. reflexivity. Qed.

Lemma counter_ext_no_sep (ext : string) (n : nat) :
  has_char "/" ext = false -> has_char "/" (counter_ext ext n) = false.
Proof.
  intros H. unfold counter_ext. simpl.
  rewrite has_char_app, str_of_nat_no_sep. simpl. exact H.
Qed.

Lemma counter_ext_inj (s ext : string) (n m : nat) :
  s +:+ counter_ext ext n = s +:+ counter_ext ext m -> n = m.
Proof.
  intros H. apply (inj (String.append s)) in H.
  unfold counter_ext in H.
  assert (String "(" ((str_of_nat n +:+ ").") +:+ ext)
          = String "(" ((str_of_nat m +:+ ").") +:+ ext)) as H'.
  { rewrite !app_assoc_s. exact H. }
  injection H' as H'. do 2 apply app_inv_tail_s in H'.
  now apply str_of_nat_inj.
Qed.

Lemma with_paren_ordinary (s t : string) :
  let c := s +:+ String "(" t in
  String.eqb c "" = false /\ String.eqb c "." = false /\ String.eqb c ".." = false.
Proof.
  intros c.
  assert (has_char "(" c = true) as Hc.
  { unfold c. rewrite has_char_app. simpl. apply orb_true_r. }
  repeat split; apply String.eqb_neq; intros E; rewrite E in Hc; discriminate.
Qed.

(** The candidates in use all lie in one directory, under names that
    differ with the counter. *)
Lemma candidates_in_one_directory (fs : Fs.node) (name ext : string) :
  has_char "/" ext = false ->
  exists names, length names <= links fs /\
    forall n, Fs.exists_ fs (candidate name ext n) = true ->
              In (List.last (split "/" name) "" +:+ counter_ext ext n) names.
Proof.
  intros Hext.
  set (init := removelast (split "/" name)).
  exists (match Fs.canon fs [] init with
          | Some r => match lookup fs r with
                      | Some (Node es) => map fst es
                      | _ => []
                      end
          | None => []
          end).
  split.
  - destruct (Fs.canon fs [] init) as [r|]; [|simpl; lia].
    destruct (lookup fs r) as [[a|es]|] eqn:E; simpl; try lia.
    rewrite length_map. now apply lookup_links in E.
  - intros n. unfold Fs.exists_, Fs.stat, Fs.resolve, OsPath.sep.
    rewrite candidate_split.
    destruct (String.eqb (name +:+ counter_ext ext n) ""); [discriminate|].
    rewrite (split_app_nosep "/" name _ (counter_ext_no_sep ext n Hext)).
    fold init.
    destruct (with_paren_ordinary (List.last (split "/" name) "")
                (str_of_nat n +:+ ")." +:+ ext)) as (H1 & H2 & H3).
    change (List.last (split "/" name) "" +:+ String "(" (str_of_nat n +:+ ")." +:+ ext))
      with (List.last (split "/" name) "" +:+ counter_ext ext n) in H1, H2, H3.
    rewrite (canon_snoc fs [] init _ H1 H2 H3).
    destruct (Fs.canon fs [] init) as [r|]; [|discriminate].
    rewrite lookup_snoc.
    destruct (lookup fs r) as [[a|es]|]; try discriminate.
    destruct (assoc _ es) as [m|] eqn:E; [|discriminate].
    intros _. now apply assoc_In in E as [E _].
Qed.

(** The loop of the source is the search of the strategy, started at
    the counter after [suffix]. *)
Lemma unique_loop_strategy (fs : Fs.node) (fuel : nat) (name ext : string) (suffix : nat) :
  unique_loop fs fuel name ext suffix =
  first_unused_from (Fs.exists_ fs) (candidate name ext) fuel (S suffix).
Proof.
  revert suffix; induction fuel as [|fuel IH]; intros suffix; simpl; [reflexivity|].
  replace (suffix + 1) with (S suffix) by lia.
  destruct (Fs.exists_ fs (candidate name ext (S suffix))); simpl; [apply IH | reflexivity].
Qed.

Lemma get_unique_filename_fuel_strategy (fuel : nat) (fs : Fs.node) (p : string) :
  get_unique_filename_fuel fuel fs p =
  make_unique (Fs.exists_ fs)
    (candidate (fst (OsPath.splitext p)) (snd (OsPath.splitext p))) fuel p.
Proof.
  unfold get_unique_filename_fuel, make_unique.
  destruct (OsPath.splitext p) as [name ext]; simpl.
  destruct (Fs.exists_ fs p); [apply unique_loop_strategy | reflexivity].
Qed.

(** The loop ends: with one more iteration than the filesystem has
    links it returns the candidate of the least free counter. *)
Lemma unique_loop_total (fs : Fs.node) (p name ext : string) :
  OsPath.splitext p = (name, ext) ->
  exists m, 1 <= m /\
    unique_loop fs (S (links fs)) name ext 0 = Some (candidate name ext m) /\
    Fs.exists_ fs (candidate name ext m) = false /\
    forall k, 1 <= k < m -> Fs.exists_ fs (candidate name ext k) = true.
Proof.
  intros Hp. apply splitext_spec in Hp as [_ Hext].
  destruct (candidates_in_one_directory fs name ext Hext) as (names & Hlen & Hin).
  destruct (first_unused_from_total (Fs.exists_ fs) (candidate name ext)
              (fun n => List.last (split "/" name) "" +:+ counter_ext ext n) names
              (fun n m => counter_ext_inj _ ext n m) Hin 1)
    as (m & Hm & Hres & Hfree & Hbusy).
  exists m. split; [assumption|]. split; [|split; assumption].
  rewrite unique_loop_strategy.
  eapply first_unused_from_more_fuel; [exact Hres | lia].
Qed.

Lemma candidate_differs (p name ext : string) (n : nat) :
  OsPath.splitext p = (name, ext) -> candidate name ext n <> p.
Proof.
  intros Hp E. apply splitext_spec in Hp as [Hp _].
  apply (f_equal String.length) in E. rewrite <- Hp in E.
  rewrite candidate_split, !str_length_app in E. unfold counter_ext in E.
  simpl in E. rewrite !str_length_app in E. simpl in E. lia.
Qed.

(** For a path with an extension every candidate has two dots in a row
    between the counter and the extension. *)
Lemma candidate_two_dots (p name ext : string) (n : nat) :
  OsPath.splitext p = (name, ext) -> ext <> "" ->
  exists rest, ext = String "." rest /\
    candidate name ext n = name +:+ "(" +:+ str_of_nat n +:+ ").." +:+ rest.
Proof.
  intros Hp Hne. destruct (splitext_dot p name ext Hp) as [->|[rest ->]]; [contradiction|].
  exists rest. split; reflexivity.
Qed.

End UniqueFilenameFacts.

(** C7. For a path that does not exist [get_unique_filename] returns the
    path itself; for a path that exists it returns (the loop ends) a
    path that does not exist and that differs from the one given. *)
Theorem get_unique_filename_fresh (w : Files.world) (p : string) :
  exists q, Files.get_unique_filename p w = (Ok q, w) /\
            Fs.exists_ (Files.fs w) q = false /\
            if Fs.exists_ (Files.fs w) p then q <> p else q = p.
Proof.
  unfold Files.get_unique_filename, Files.get_unique_filename_fuel.
  destruct (OsPath.splitext p) as [name ext] eqn:Hp.
  destruct (Fs.exists_ (Files.fs w) p) eqn:E.
  - destruct (unique_loop_total (Files.fs w) p name ext Hp) as (m & _ & Hres & Hfree & _).
    simpl in Hres |- *. rewrite Hres. exists (Files.candidate name ext m).
    split; [reflexivity|]. split; [assumption|]. now apply candidate_differs.
  - exists p. now rewrite E.
Qed.

(** ** [move_files_to_top] *)

Section FlattenFacts.

Import Files.

(** On a collision the branch of [duplicate_suffix] computes a name and
    moves nothing. *)
Lemma move_file_collision_suffix (dir_path root file : string) (w : world) :
  Fs.exists_ (fs w) (OsPath.join dir_path file) = true ->
  move_file dir_path true root file w = (Ok tt, w).
Proof.
  intros E. unfold move_file, bind, os_path_exists. rewrite E. simpl.
  unfold get_unique_filename, get_unique_filename_fuel.
  destruct (OsPath.splitext (OsPath.join dir_path file)) as [name ext] eqn:Hp.
  rewrite E.
  destruct (unique_loop_total (fs w) _ name ext Hp) as (m & _ & Hres & _).
  simpl in Hres |- *. now rewrite Hres.
Qed.

(** On a collision the other branch prints and then moves. *)
Lemma move_file_collision_skip (dir_path root file : string) (w : world) :
  Fs.exists_ (fs w) (OsPath.join dir_path file) = true ->
  move_file dir_path false root file w =
  (print ("File " +:+ OsPath.join dir_path file +:+ " already exists");;
   shutil_move (OsPath.join root file) (OsPath.join dir_path file)) w.
Proof.
  intros E. unfold move_file, bind at 1, os_path_exists. now rewrite E.
Qed.

(** Under the skip policy the mover of the legacy copy prints the
    collision and leaves both files where they are. *)
Lemma safe_rename_file_skip (str_of_exn : exn -> string)
    (new_fpath root file : string) (w : world) :
  Fs.exists_ (fs w) (OsPath.join new_fpath file) = true ->
  safe_rename_file str_of_exn new_fpath false root file w =
  (Ok tt, {| fs := fs w;
             out := out w ++ ["File " +:+ OsPath.join new_fpath file +:+ " already exists"] |}).
Proof.
  intros E. unfold safe_rename_file, bind, os_path_exists. now rewrite E.
Qed.

(** On the collision scenario the mover of the legacy copy, given
    [root/sub] to merge into [root], skips under the one policy and
    moves the file to the name [get_unique_filename] computed under
    the other. *)
Lemma safe_rename_collision (str_of_exn : exn -> string) :
  safe_rename str_of_exn (PathObj "root/sub") "root" false Scenario.collision
    = (Ok tt, {| fs := fs Scenario.collision;
                 out := ["File root/x.txt already exists"] |}) /\
  (let '(r, w) := safe_rename str_of_exn (PathObj "root/sub") "root" true
                    Scenario.collision in
   r = Ok tt /\
   Scenario.all_files w = [("root/x.txt", "A"); ("root/x(1)..txt", "B")]).
Proof. split; vm_compute; [reflexivity | split; reflexivity]. Qed.

End FlattenFacts.

(** C5. With [x.txt] present, the first candidate [get_unique_filename]
    builds for [x.txt] is [x(1)..txt]: [os.path.splitext] leaves the dot
    in the extension and the format string adds one of its own, so the
    counter is not put right before the extension and [x(1).txt] is not
    what is returned. *)
Theorem get_unique_filename_doubles_the_dot :
  OsPath.splitext "x.txt" = ("x", ".txt") /\
  Files.candidate "x" ".txt" 1 = "x(1)..txt" /\
  Files.get_unique_filename "x.txt" Scenario.single_file
    = (Ok "x(1)..txt", Scenario.single_file) /\
  Fs.exists_ (Files.fs Scenario.single_file) "x(1).txt" = false.
Proof. repeat split; vm_compute; reflexivity. Qed.

(** C2. Flattening [root] of the collision scenario with
    [duplicate_suffix=True] returns without having moved anything:
    [root/sub/x.txt] is where it was and [root] has no [x(1).txt]
    (nor the [x(1)..txt] that [get_unique_filename] computed). *)
Theorem move_files_to_top_suffix_moves_nothing :
  Files.move_files_to_top "root" false true Scenario.collision
    = (Ok tt, Scenario.collision) /\
  Scenario.all_files Scenario.collision
    = [("root/x.txt", "A"); ("root/sub/x.txt", "B")] /\
  Fs.exists_ (Files.fs Scenario.collision) "root/x(1).txt" = false /\
  Fs.exists_ (Files.fs Scenario.collision) "root/x(1)..txt" = false.
Proof. repeat split; vm_compute; reflexivity. Qed.

(** C1. Flattening [root] of the collision scenario with
    [duplicate_suffix=True] and [del_empty_dirs=True] prints nothing and
    leaves [root/x.txt] as the only file: the file that was at
    [root/sub/x.txt] is gone, without any conflict logged, outside the
    skip policy. *)
Theorem move_files_to_top_suffix_drops_file :
  let '(r, w) := Files.move_files_to_top "root" true true Scenario.collision in
  r = Ok tt /\
  Files.out w = [] /\
  Scenario.all_files w = [("root/x.txt", "A")].
Proof. vm_compute. repeat split; reflexivity. Qed.

(** C4. Flattening [root] of the collision scenario with
    [duplicate_suffix=False] prints the collision and then moves the
    file all the same: [root/x.txt] now holds what was in
    [root/sub/x.txt], the file that was there is overwritten and the
    source is gone from [root/sub]. *)
Theorem move_files_to_top_skip_overwrites :
  let '(r, w) := Files.move_files_to_top "root" false false Scenario.collision in
  r = Ok tt /\
  Files.out w = ["File root/x.txt already exists"] /\
  Scenario.all_files w = [("root/x.txt", "B")] /\
  Fs.exists_ (Files.fs w) "root/sub/x.txt" = false.
Proof. vm_compute. repeat split; reflexivity. Qed.

(** ** [tqdm_joblib] *)

(** C10. When the [with tqdm_joblib(...)] statement is left, the body
    having returned or raised, [joblib.parallel.BatchCompletionCallBack]
    is the class it was on entry, whatever the body bound it to, the
    bar is closed, and the outcome is the outcome of the body. *)
Theorem tqdm_joblib_restores {A : Type} (tqdm_object : nat)
    (body : nat -> M Joblib.world A) (w : Joblib.world) :
  fst (Joblib.tqdm_joblib tqdm_object body w) <> OutOfFuel ->
  let patched :=
    {| Joblib.BatchCompletionCallBack :=
         Joblib.TqdmBatchCompletionCallback tqdm_object (Joblib.BatchCompletionCallBack w);
       Joblib.bars := Joblib.bars w |} in
  let w' := snd (Joblib.tqdm_joblib tqdm_object body w) in
  Joblib.BatchCompletionCallBack w' = Joblib.BatchCompletionCallBack w /\
  Joblib.closed (Joblib.bars w' tqdm_object) = true /\
  fst (Joblib.tqdm_joblib tqdm_object body w) = fst (body tqdm_object patched).
Proof.
  unfold Joblib.tqdm_joblib, bind, get, Joblib.set_callback, Joblib.try_finally,
    Joblib.tqdm_close, Joblib.set_bar. simpl.
  destruct (body tqdm_object _) as [[a|e|] w1]; simpl; intros H.
  - rewrite Nat.eqb_refl. auto.
  - rewrite Nat.eqb_refl. auto.
  - contradiction.
Qed.

(** A body that completes two batches, rebinds the global and raises. *)
Lemma tqdm_joblib_restores_witness :
  let body := fun _ : nat =>
    (Joblib.batch_completed 3;; Joblib.batch_completed 2;;
     Joblib.set_callback Joblib.BatchCompletionCallBack_stock;;
     raise KeyError : M Joblib.world unit) in
  let w' := snd (Joblib.tqdm_joblib 0 body Scenario.patched_before) in
  fst (Joblib.tqdm_joblib 0 body Scenario.patched_before) = Raise KeyError /\
  Joblib.BatchCompletionCallBack w' = Joblib.Foreign 7 /\
  Joblib.closed (Joblib.bars w' 0) = true /\
  Joblib.n (Joblib.bars w' 0) = 5.
Proof.
  intros body w'.
  destruct (tqdm_joblib_restores 0 body Scenario.patched_before) as (H1 & H2 & H3).
  - vm_compute. discriminate.
  - split; [reflexivity|]. split; [exact H1|]. split; [exact H2 | reflexivity].
Defined.

(** ** The logger *)

Section LoggerFacts.

Import H5 Utils.

Variable self : h5_logger.

Lemma global_unbound (g : list string) (name : string) (w : world) :
  name ∉ g -> global g name w = (Raise (NameError name), w).
Proof. intros H. unfold global. now rewrite bool_decide_eq_false_2. Qed.

Lemma global_bound (g : list string) (name : string) (w : world) :
  name ∈ g -> global g name w = (Ok tt, w).
Proof. intros H. unfold global. now rewrite bool_decide_eq_true_2. Qed.

Lemma os_not_imported : "os" ∉ module_globals.
Proof. vm_compute. intros H. repeat (inversion H as [|? ? ? H']; subst; clear H; rename H' into H). Qed.

(** [utils.py] never imports [os]: every call of [check_if_in_h5]
    stops at the name. *)
Lemma check_if_in_h5_NameError (path key : string) (w : world) :
  check_if_in_h5 module_globals path key w = (Raise (NameError "os"), w).
Proof.
  unfold check_if_in_h5, bind. now rewrite (global_unbound _ _ _ os_not_imported).
Qed.

(** Whatever names are bound, [log_attribute] without [replace] never
    fails with the exception class it builds for a key that exists. *)
Lemma log_attribute_never_AttributeError (g : list string) (key : string)
    (value : ndarray) (w : world) :
  fst (log_attribute g self key value false w) <> Raise AttributeError.
Proof.
  unfold log_attribute, bind, check_if_in_h5, global, bind, get, ret, raise.
  case_bool_decide; simpl; [|discriminate].
  destruct (files w !! filename self) as [f|] eqn:Hf.
  - rewrite bool_decide_eq_true_2 by eauto. simpl.
    unfold with_file, try_except, bind, read_file, write_file, ret. rewrite Hf. simpl.
    rewrite Hf. unfold getitem.
    destruct (String.eqb key "") eqn:Hk; simpl; [discriminate|].
    destruct (lookup f (components key)) eqn:Hl; simpl; [discriminate|].
    rewrite !Hf.
    unfold setitem, link_dataset. rewrite Hk, Hl.
    destruct (insert_deep f (components key) _); simpl; discriminate.
  - rewrite bool_decide_eq_false_2 by (intros [? ?]; discriminate). simpl.
    unfold with_file, write_file. rewrite Hf. simpl. rewrite lookup_insert_eq.
    unfold setitem, link_dataset.
    destruct (String.eqb key ""); simpl; [discriminate|].
    destruct (lookup _ (components key)); simpl; [discriminate|].
    destruct (insert_deep _ (components key) _); simpl; discriminate.
Qed.

End LoggerFacts.

(** ** [get_unique_key] once [os] is bound

    What the loop of [get_unique_key] computes when the name [os]
    resolves: the comparison with the naming strategy. *)

Section UniqueKeyFacts.

Import H5 Utils Strategy.

#[local] Arguments String.append !_ _ / : simpl nomatch.

Variable g : list string.
Variable self : h5_logger.
Hypothesis os_bound : "os" ∈ g.

Lemma check_key_bound (key : string) (w : world) :
  String.eqb key "" = false ->
  exists w', check_key g self key w = (Ok (in_use self w key), w') /\
             files w' = files w.
Proof.
  intros Hk. unfold check_key, check_if_in_h5, bind, in_use.
  rewrite (global_bound g "os" w os_bound). simpl.
  destruct (files w !! filename self) as [f|] eqn:Hf.
  - rewrite bool_decide_eq_true_2 by eauto. simpl.
    unfold with_file. rewrite Hf. simpl.
    unfold try_except, bind, read_file. simpl. rewrite Hf.
    unfold getitem, contains. rewrite Hk.
    destruct (lookup f (components key)); simpl; eauto.
  - rewrite bool_decide_eq_false_2 by (intros [? ?]; discriminate). simpl. eauto.
Qed.

Lemma in_use_files (w w' : world) (key : string) :
  files w' = files w -> in_use self w' key = in_use self w key.
Proof. intros H. unfold in_use. now rewrite H. Qed.

Lemma candidate_key_not_empty (b sfx : string) (n : nat) :
  String.eqb (candidate_key b sfx n) "" = false.
Proof.
  apply String.eqb_neq. intros E. apply (f_equal String.length) in E.
  unfold candidate_key in E. rewrite str_length_app in E. simpl in E. lia.
Qed.

(** The loop of the source, entered on the candidate of [counter], is
    the search of the strategy from that counter on. *)
Lemma unique_key_loop_strategy (b sfx : string) (fuel counter : nat) (w : world) :
  fst (unique_key_loop g self fuel b sfx counter (candidate_key b sfx counter) w) =
  match first_unused_from (in_use self w) (candidate_key b sfx) fuel counter with
  | Some k => Ok k
  | None => OutOfFuel
  end.
Proof.
  revert counter w; induction fuel as [|fuel IH]; intros counter w; [reflexivity|].
  cbn [unique_key_loop first_unused_from]. unfold bind.
  destruct (check_key_bound _ w (candidate_key_not_empty b sfx counter)) as (w' & -> & Hw').
  destruct (in_use self w (candidate_key b sfx counter)); [|reflexivity].
  replace (counter + 1) with (S counter) by lia.
  rewrite IH. clear IH.
  replace (first_unused_from (in_use self w') (candidate_key b sfx) fuel (S counter))
    with (first_unused_from (in_use self w) (candidate_key b sfx) fuel (S counter));
    [reflexivity|].
  generalize (S counter). induction fuel as [|fuel IH]; intros n; [reflexivity|].
  simpl. rewrite (in_use_files w w' _ Hw'). now rewrite IH.
Qed.

(** [get_unique_key] follows the strategy of section 4.2, with its own
    candidates. *)
Lemma get_unique_key_fuel_strategy (fuel : nat) (base_key : string) (w : world) :
  String.eqb base_key "" = false ->
  fst (get_unique_key_fuel g self (S fuel) base_key w) =
  match make_unique (in_use self w)
          (candidate_key (fst (stem_and_suffix base_key)) (snd (stem_and_suffix base_key)))
          fuel base_key with
  | Some k => Ok k
  | None => OutOfFuel
  end.
Proof.
  intros Hk. unfold get_unique_key_fuel, make_unique.
  destruct (stem_and_suffix base_key) as [b sfx]. cbn [fst snd unique_key_loop].
  unfold bind. destruct (check_key_bound base_key w Hk) as (w' & -> & Hw').
  destruct (in_use self w base_key); [|reflexivity].
  change (0 + 1) with 1.
  rewrite unique_key_loop_strategy.
  replace (first_unused_from (in_use self w') (candidate_key b sfx) fuel 1)
    with (first_unused_from (in_use self w) (candidate_key b sfx) fuel 1);
    [reflexivity|].
  generalize 1. induction fuel as [|fuel IH]; intros n; [reflexivity|].
  simpl. rewrite (in_use_files w w' _ Hw'). now rewrite IH.
Qed.

Lemma split_app_sep (c : ascii) (s : string) :
  split c (s +:+ String c "") = split c s ++ [""].
Proof.
  induction s as [|a s IH]; simpl.
  - now rewrite Ascii.eqb_refl.
  - destruct (Ascii.eqb a c); rewrite IH; [reflexivity|].
    pose proof (split_not_nil c s). destruct (split c s); [contradiction | reflexivity].
Qed.

Lemma counter_tail_no_sep (n : nat) : has_char "/" (counter_tail n) = false.
Proof. unfold counter_tail. simpl. apply str_of_nat_no_sep. Qed.

Lemma stem_and_suffix_cases (base_key : string) :
  snd (stem_and_suffix base_key) = "" \/ snd (stem_and_suffix base_key) = "/".
Proof. unfold stem_and_suffix. destruct (endswith_char base_key "/"); auto. Qed.

Lemma with_underscore_ordinary (s t : string) : ordinary (s +:+ String "_" t) = true.
Proof.
  assert (has_char "_" (s +:+ String "_" t) = true) as Hc.
  { rewrite has_char_app. simpl. apply orb_true_r. }
  unfold ordinary. apply negb_true_iff, orb_false_iff.
  split; apply String.eqb_neq; intros E; rewrite E in Hc; discriminate.
Qed.

(** The names a candidate walks through: those of the stem, the last
    one extended by the counter. *)
Lemma candidate_key_components (b sfx : string) (n : nat) :
  sfx = "" \/ sfx = "/" ->
  components (candidate_key b sfx n) =
  List.filter ordinary (removelast (split "/" b)) ++ [List.last (split "/" b) "" +:+ counter_tail n].
Proof.
  intros Hsfx. unfold components.
  assert (split "/" (candidate_key b sfx n) =
          (removelast (split "/" b) ++ [List.last (split "/" b) "" +:+ counter_tail n])
          ++ (if String.eqb sfx "" then [] else [""])) as ->.
  { destruct Hsfx as [-> | ->]; simpl.
    - rewrite app_nil_r. unfold candidate_key.
      replace ("_" ++ str_of_nat n ++ "")%string with (counter_tail n).
      + apply split_app_nosep, counter_tail_no_sep.
      + unfold counter_tail. simpl. f_equal.
        generalize (str_of_nat n). intros u; induction u; simpl; [reflexivity | now f_equal].
    - unfold candidate_key.
      replace (b ++ "_" ++ str_of_nat n ++ "/")%string
        with ((b +:+ counter_tail n) +:+ "/").
      + rewrite split_app_sep. f_equal. apply split_app_nosep, counter_tail_no_sep.
      + unfold counter_tail. now rewrite !app_assoc_s. }
  rewrite !List.filter_app. simpl.
  unfold counter_tail at 1. simpl. rewrite with_underscore_ordinary.
  destruct Hsfx as [-> | ->]; simpl; now rewrite ?app_nil_r.
Qed.

Lemma counter_tail_inj (s : string) (n m : nat) :
  s +:+ counter_tail n = s +:+ counter_tail m -> n = m.
Proof.
  intros H. apply (inj (String.append s)) in H. unfold counter_tail in H.
  simpl in H. injection H as H. now apply str_of_nat_inj.
Qed.

(** The keys in use among the candidates all lie in one group. *)
Lemma candidate_keys_in_one_group (b sfx : string) (w : world) :
  sfx = "" \/ sfx = "/" ->
  exists names, length names <= links (content self w) /\
    forall n, in_use self w (candidate_key b sfx n) = true ->
              In (List.last (split "/" b) "" +:+ counter_tail n) names.
Proof.
  intros Hsfx. unfold in_use, content.
  destruct (files w !! filename self) as [f|]; [|exists []; split; [simpl; lia | discriminate]].
  set (pre := List.filter ordinary (removelast (split "/" b))).
  exists (match lookup f pre with
          | Some (Node es) => map fst es
          | _ => []
          end).
  split.
  - destruct (lookup f pre) as [[a|es]|] eqn:E; simpl; try lia.
    rewrite length_map. now apply lookup_links in E.
  - intros n. unfold contains. rewrite candidate_key_not_empty.
    rewrite (candidate_key_components b sfx n Hsfx). fold pre.
    rewrite lookup_snoc.
    destruct (lookup f pre) as [[a|es]|]; try discriminate.
    destruct (assoc _ es) as [m|] eqn:E; [|discriminate].
    intros _. now apply assoc_In in E as [E _].
Qed.

(** With [os] bound, [get_unique_key] returns: the base key when it is
    not in use, else the candidate of the least counter that is not, a
    key that is not in use and that ends with the separator when the
    base key does. *)
Lemma get_unique_key_with_os (base_key : string) (w : world) :
  String.eqb base_key "" = false ->
  exists k,
    fst (get_unique_key g self base_key w) = Ok k /\
    make_unique (in_use self w)
      (candidate_key (fst (stem_and_suffix base_key)) (snd (stem_and_suffix base_key)))
      (S (links (content self w))) base_key = Some k /\
    in_use self w k = false /\
    (endswith_char base_key "/" = true -> endswith_char k "/" = true).
Proof.
  intros Hk. unfold get_unique_key, bind, get.
  rewrite (get_unique_key_fuel_strategy _ base_key w Hk).
  unfold make_unique.
  destruct (in_use self w base_key) eqn:Hbase; [|exists base_key; auto].
  destruct (candidate_keys_in_one_group (fst (stem_and_suffix base_key))
              (snd (stem_and_suffix base_key)) w (stem_and_suffix_cases base_key))
    as (names & Hlen & Hin).
  destruct (first_unused_from_total (in_use self w) _ _ names
              (fun n m => counter_tail_inj _ n m) Hin 1)
    as (m & _ & Hres & Hfree & _).
  apply (first_unused_from_more_fuel _ _ _ (S (links (content self w)))) in Hres; [|lia].
  rewrite Hres. eexists. split; [reflexivity|]. split; [reflexivity|].
  split; [exact Hfree|].
  intros He. unfold stem_and_suffix. rewrite He. simpl. unfold candidate_key.
  generalize (drop_last base_key +:+ "_" +:+ str_of_nat m). clear.
  intros u. rewrite <- !app_assoc_s.
  generalize ((drop_last base_key +:+ "_") +:+ str_of_nat m). clear.
  intros u. induction u as [|a u IH]; [reflexivity|].
  simpl. destruct (u +:+ "/") eqn:E; [destruct u; discriminate | exact IH].
Qed.

End UniqueKeyFacts.

(** C3. With [k] holding a value, [log_attribute(k, value)] without
    [replace] does not fail with the error it builds: the module as it
    is written stops at the unbound name [os], with and without
    [replace], so that nothing is overwritten either; and with [os]
    bound the call returns normally, the exception object being built
    and never raised. The stored value stays in all three cases. *)
Theorem log_attribute_existing_key :
  Utils.log_attribute Utils.module_globals Scenario.logger "k" Scenario.three_four false
      Scenario.with_attribute
    = (Raise (NameError "os"), Scenario.with_attribute) /\
  Utils.log_attribute Utils.module_globals Scenario.logger "k" Scenario.three_four true
      Scenario.with_attribute
    = (Raise (NameError "os"), Scenario.with_attribute) /\
  (let '(r, w) :=
     Utils.log_attribute ("os" :: Utils.module_globals) Scenario.logger "k"
       Scenario.three_four false Scenario.with_attribute in
   r = Ok tt /\ Utils.files w = Utils.files Scenario.with_attribute).
Proof. repeat split; vm_compute; reflexivity. Qed.

(** C6. In the module as it is written [get_unique_key] returns no key
    at all: its first test of a key stops at the unbound name [os], for
    every base key and every log file. *)
Theorem get_unique_key_NameError (self : Utils.h5_logger) (base_key : string)
    (w : Utils.world) :
  Utils.get_unique_key Utils.module_globals self base_key w
    = (Raise (NameError "os"), w).
Proof.
  unfold Utils.get_unique_key, Utils.get_unique_key_fuel, bind, get.
  destruct (Utils.stem_and_suffix base_key) as [stem suffix]. simpl.
  unfold bind, Utils.check_key. now rewrite check_if_in_h5_NameError.
Qed.

(** C9. [get_keys] with two or more arguments fails on its assertion
    and makes no [h5py.File] call; with none or one the assertion
    passes, the file is opened once for reading, and the names of the
    members of the root group, or of the group the key names, come back. *)
Theorem get_keys_arity (self : Utils.h5_logger) (w : Utils.world) :
  (forall args, 2 <= length args ->
     Utils.get_keys self args w
     = (Raise (AssertionError ("Expected 0 or 1 arguments, received "
                               +:+ str_of_nat (length args))), w)) /\
  (forall args msg, length args <= 1 ->
     fst (Utils.get_keys self args w) <> Raise (AssertionError msg)) /\
  (forall members, Utils.files w !! Utils.filename self = Some (H5.Group members) ->
     fst (Utils.get_keys self [] w) = Ok (map fst members) /\
     Utils.opens (snd (Utils.get_keys self [] w)) = Utils.opens w ++ ["r"]) /\
  (forall f key members,
     Utils.files w !! Utils.filename self = Some f ->
     H5.getitem f key = Ok (H5.Group members) ->
     fst (Utils.get_keys self [key] w) = Ok (map fst members) /\
     Utils.opens (snd (Utils.get_keys self [key] w)) = Utils.opens w ++ ["r"]).
Proof.
  repeat apply conj.
  - intros [|a [|b args]] H; simpl in H; try lia. reflexivity.
  - intros [|a [|b args]] msg H; simpl in H; try lia.
    + unfold Utils.get_keys, Utils.with_file, Utils.read_file. simpl.
      destruct (Utils.files w !! Utils.filename self) as [[d|ms]|]; simpl;
        try rewrite lookup_insert_eq; simpl; discriminate.
    + unfold Utils.get_keys, Utils.with_file, Utils.read_file. simpl.
      destruct (Utils.files w !! Utils.filename self) as [f|]; simpl; [|discriminate].
      unfold H5.getitem. destruct (String.eqb a ""); [discriminate|].
      destruct (lookup f (H5.components a)) as [[d|ms]|]; discriminate.
  - intros members Hf. unfold Utils.get_keys, Utils.with_file, Utils.read_file.
    simpl. rewrite !Hf. split; reflexivity.
  - intros f key members Hf Hk. unfold Utils.get_keys, Utils.with_file, Utils.read_file.
    simpl. rewrite !Hf, Hk. split; reflexivity.
Qed.

Lemma get_keys_arity_witness :
  Utils.get_keys Scenario.logger ["g"; "h"] Scenario.with_group
    = (Raise (AssertionError "Expected 0 or 1 arguments, received 2"),
       Scenario.with_group) /\
  (fst (Utils.get_keys Scenario.logger [] Scenario.with_group) = Ok ["g"] /\
   Utils.opens (snd (Utils.get_keys Scenario.logger [] Scenario.with_group)) = ["r"]) /\
  (fst (Utils.get_keys Scenario.logger ["g"] Scenario.with_group) = Ok ["a"] /\
   Utils.opens (snd (Utils.get_keys Scenario.logger ["g"] Scenario.with_group)) = ["r"]).
Proof.
  destruct (get_keys_arity Scenario.logger Scenario.with_group) as (H2 & _ & H0 & H1).
  split; [apply (H2 ["g"; "h"]); simpl; lia|].
  split; [exact (H0 _ eq_refl) | exact (H1 _ "g" _ eq_refl eq_refl)].
Defined.

(** ** [log_value] and [get_dataset] *)

Section LogValueFacts.

Import H5 Utils.

Variable broadcast : list nat -> ndarray -> result (list Z).
Variable self : h5_logger.

Lemma with_file_append {A} (path : string) (body : string -> M world A) (w : world) :
  with_file path "a" body w = body path (opened_for_append path w).
Proof.
  unfold with_file, opened_for_append.
  destruct (files w !! path); reflexivity.
Qed.

Lemma opened_for_append_content (w : world) :
  files (opened_for_append (filename self) w) !! filename self = Some (content self w).
Proof.
  unfold opened_for_append, content. simpl.
  destruct (files w !! filename self) eqn:E; [exact E | apply lookup_insert_eq].
Qed.

Lemma free_inv (f : obj) (key : string) :
  free f key = true ->
  String.eqb key "" = false /\ lookup f (components key) = None /\
  reachable f (components key) = true.
Proof.
  unfold free. intros H. apply andb_true_iff in H as [H1 H2].
  apply negb_true_iff in H1. split; [assumption|].
  destruct (lookup f (components key)); [discriminate | now split].
Qed.

Lemma records_inv (f : obj) (key : string) (s : list nat) (n : nat) :
  records f key s = Some n ->
  String.eqb key "" = false /\ components key <> [] /\
  exists d, lookup f (components key) = Some (Leaf d) /\
            ds_maxrows d = Some None /\ shape (ds_array d) = n :: s.
Proof.
  unfold records. destruct (String.eqb key ""); [discriminate|].
  destruct (components key) as [|c cs] eqn:Ec; [discriminate|].
  destruct (lookup f (c :: cs)) as [[d|es]|] eqn:El; try discriminate.
  destruct (ds_maxrows d) as [[m|]|] eqn:Em; try discriminate.
  destruct (shape (ds_array d)) as [|k rest] eqn:Es; [discriminate|].
  case_bool_decide; [|discriminate]. intros [= ->]. subst rest.
  split; [reflexivity|]. split; [discriminate|]. exists d. auto.
Qed.

Lemma records_intro (f : obj) (key : string) (s : list nat) (n : nat) (d : dataset) :
  String.eqb key "" = false -> components key <> [] ->
  lookup f (components key) = Some (Leaf d) ->
  ds_maxrows d = Some None -> shape (ds_array d) = n :: s ->
  records f key s = Some n.
Proof.
  intros Hk Hc Hl Hm Hs. unfold records. rewrite Hk.
  destruct (components key) as [|c cs]; [contradiction|].
  rewrite Hl, Hm, Hs. now rewrite bool_decide_eq_true_2.
Qed.




Lemma content_of (w : world) (f : obj) :
  files w !! filename self = Some f -> content self w = f.
Proof. intros H. unfold content. now rewrite H. Qed.





End LogValueFacts.





(** * More of [files.py] and [utils.py] *)

(** ** Trees: what unlinking and linking keep *)

Section TreeMoreFacts.

Context {A : Type}.
Implicit Types (t n : tree A) (cs p : list string) (es : list (string * tree A)).

Lemma leaves_node es : leaves (Node es) = flat_map (fun e => leaves (snd e)) es.
Proof. reflexivity. Qed.

Lemma assoc_remove_leaves es (c : string) n :
  assoc c es = Some n ->
  leaves (Node (assoc_remove c es)) ++ leaves n ≡ₚ leaves (Node es).
Proof.
  rewrite !leaves_node. induction es as [|[k v] es IH]; simpl; [discriminate|].
  destruct (String.eqb c k).
  - intros [= ->]. apply Permutation_app_comm.
  - intros H. simpl. rewrite <- (IH H). now rewrite app_assoc.
Qed.

Lemma assoc_set_leaves es (c : string) n n' :
  assoc c es = Some n ->
  leaves (Node (assoc_set c n' es)) ++ leaves n ≡ₚ leaves (Node es) ++ leaves n'.
Proof.
  rewrite !leaves_node. induction es as [|[k v] es IH]; simpl; [discriminate|].
  destruct (String.eqb c k).
  - intros [= ->]. simpl.
    etrans; [apply Permutation_app_comm|].
    rewrite <- app_assoc. apply Permutation_app_head, Permutation_app_comm.
  - intros H. simpl. rewrite <- !app_assoc. apply Permutation_app_head. now apply IH.
Qed.

Lemma assoc_set_fresh es (c : string) n :
  assoc c es = None -> assoc_set c n es = es ++ [(c, n)].
Proof.
  induction es as [|[k v] es IH]; simpl; [reflexivity|].
  destruct (String.eqb c k); [discriminate|]. intros H. now rewrite IH.
Qed.

Lemma assoc_remove_other {B} (c d : string) (l : list (string * B)) :
  String.eqb c d = false -> assoc d (assoc_remove c l) = assoc d l.
Proof.
  intros Hcd. induction l as [|[k v] l IH]; simpl; [reflexivity|].
  destruct (String.eqb_spec c k) as [->|Hck].
  - rewrite String.eqb_sym, Hcd. reflexivity.
  - simpl. now rewrite IH.
Qed.

Lemma assoc_set_other {B} (c d : string) (x : B) (l : list (string * B)) :
  String.eqb c d = false -> assoc d (assoc_set c x l) = assoc d l.
Proof.
  intros Hcd. induction l as [|[k v] l IH]; simpl.
  - now rewrite String.eqb_sym, Hcd.
  - destruct (String.eqb_spec c k) as [->|Hck]; simpl.
    + now rewrite String.eqb_sym, Hcd.
    + now rewrite IH.
Qed.

(** Unlinking an entry takes its leaves away and no others. *)
Lemma leaves_remove cs t n :
  cs <> [] -> lookup t cs = Some n ->
  leaves (remove t cs) ++ leaves n ≡ₚ leaves t.
Proof.
  revert t; induction cs as [|c cs IH]; intros t Hne; [contradiction|].
  destruct t as [a|es]; [discriminate|]. cbn [lookup].
  destruct (assoc c es) as [m|] eqn:E; [|discriminate].
  destruct cs as [|c' cs].
  - intros [= ->]. cbn [remove]. now apply assoc_remove_leaves.
  - intros H. cbn [remove]. rewrite E.
    specialize (IH m ltac:(discriminate) H).
    pose proof (assoc_set_leaves es c m (remove m (c' :: cs)) E) as P.
    apply (Permutation_app_inv_r (leaves m)).
    rewrite <- app_assoc, (Permutation_app_comm (leaves n) (leaves m)), app_assoc.
    rewrite P. rewrite <- app_assoc. apply Permutation_app_head.
    exact IH.
Qed.

(** Linking an entry under a name that is free adds its leaves. *)
Lemma leaves_insert_fresh cs t n :
  cs <> [] -> lookup t cs = None -> lookup_node t (removelast cs) = true ->
  leaves (insert t cs n) ≡ₚ leaves t ++ leaves n.
Proof.
  revert t; induction cs as [|c cs IH]; intros t Hne; [contradiction|].
  destruct cs as [|c' cs].
  - unfold lookup_node. cbn [removelast lookup].
    destruct t as [a|es]; [discriminate|]. intros Hl _.
    assert (assoc c es = None) as E by (destruct (assoc c es); [discriminate | reflexivity]).
    cbn [insert]. rewrite (assoc_set_fresh es c n E), !leaves_node, flat_map_app. simpl.
    now rewrite app_nil_r.
  - change (removelast (c :: c' :: cs)) with (c :: removelast (c' :: cs)).
    unfold lookup_node. cbn [lookup].
    destruct t as [a|es]; [discriminate|].
    destruct (assoc c es) as [m|] eqn:E; [|discriminate].
    intros Hl Hp. cbn [insert]. rewrite E.
    specialize (IH m ltac:(discriminate) Hl Hp).
    pose proof (assoc_set_leaves es c m (insert m (c' :: cs) n) E) as P.
    apply (Permutation_app_inv_r (leaves m)). rewrite P, IH.
    rewrite <- !app_assoc. apply Permutation_app_head, Permutation_app_comm.
Qed.

Lemma is_prefix_spec (a b : list string) :
  Fs.is_prefix a b = true <-> exists r, b = a ++ r.
Proof.
  revert b; induction a as [|x a IH]; intros b; simpl.
  - split; eauto.
  - destruct b as [|y b].
    + split; [discriminate | intros [r H]; discriminate].
    + rewrite andb_true_iff, String.eqb_eq, IH. split.
      * intros [-> [r ->]]. eauto.
      * intros [r H]. simpl in H. injection H as -> ->. eauto.
Qed.

(** Unlinking leaves alone what is not reached through the entry. *)
Lemma lookup_remove_none cs t p :
  Fs.is_prefix cs p = false -> lookup t p = None -> lookup (remove t cs) p = None.
Proof.
  revert t p; induction cs as [|c cs IH]; intros t p; [discriminate|].
  destruct p as [|d p]; [discriminate|].
  destruct t as [a|es]; [reflexivity|]. cbn [Fs.is_prefix].
  destruct cs as [|c' cs].
  - rewrite andb_true_r. intros Hcd. cbn [remove lookup].
    now rewrite assoc_remove_other.
  - intros Hpre. cbn [remove]. destruct (assoc c es) as [m|] eqn:E; [|auto].
    cbn [lookup]. destruct (String.eqb_spec c d) as [->|Hcd].
    + rewrite assoc_set_same, E. simpl in Hpre. now apply IH.
    + rewrite assoc_set_other by now apply String.eqb_neq. auto.
Qed.

Lemma lookup_node_remove cs t p :
  Fs.is_prefix cs p = false -> lookup_node t p = true ->
  lookup_node (remove t cs) p = true.
Proof.
  revert t p; induction cs as [|c cs IH]; intros t p; [discriminate|].
  destruct t as [a|es]; [auto|].
  destruct p as [|d p].
  - intros _ _. unfold lookup_node. cbn [remove lookup].
    destruct cs; [reflexivity|]. now destruct (assoc c es).
  - cbn [Fs.is_prefix]. unfold lookup_node in *. destruct cs as [|c' cs].
    + rewrite andb_true_r. intros Hcd. cbn [remove lookup].
      now rewrite assoc_remove_other.
    + intros Hpre. cbn [remove]. destruct (assoc c es) as [m|] eqn:E; [|auto].
      cbn [lookup]. destruct (String.eqb_spec c d) as [->|Hcd].
      * rewrite assoc_set_same, E. simpl in Hpre. now apply IH.
      * rewrite assoc_set_other by now apply String.eqb_neq. auto.
Qed.

Lemma lookup_app t cs p :
  lookup t (cs ++ p) =
  match lookup t cs with
  | Some m => lookup m p
  | None => None
  end.
Proof.
  revert t; induction cs as [|c cs IH]; intros t; simpl; [reflexivity|].
  destruct t as [a|es]; [reflexivity|]. destruct (assoc c es); [apply IH | reflexivity].
Qed.

Lemma is_prefix_removelast (a b : list string) :
  Fs.is_prefix a (removelast b) = true -> Fs.is_prefix a b = true.
Proof.
  rewrite !is_prefix_spec. intros [r H].
  destruct b as [|y b'] using rev_ind; [eauto|].
  rewrite removelast_last in H. rewrite H. exists (r ++ [y]). now rewrite app_assoc.
Qed.

End TreeMoreFacts.

(** ** Renaming keeps the files *)

Section RenameFacts.

Import Files.

Lemma exists_false_lookup (fs : Fs.node) (p : string) (cd : list string) :
  Fs.exists_ fs p = false -> Fs.resolve fs p = Some cd -> lookup fs cd = None.
Proof.
  unfold Fs.exists_, Fs.stat. intros H E. rewrite E in H. now destruct (lookup fs cd).
Qed.

Lemma leaf_blocks_prefix (fs : Fs.node) (cs cd : list string) (a : string) :
  lookup fs cs = Some (Leaf a) -> cs <> cd ->
  lookup_node fs (removelast cd) = true ->
  Fs.is_prefix cs cd = false.
Proof.
  intros Hl Hne Hp. destruct (Fs.is_prefix cs cd) eqn:E; [|reflexivity].
  apply is_prefix_spec in E as [r ->].
  assert (r <> []) as Hr by (intros ->; rewrite app_nil_r in Hne; contradiction).
  rewrite removelast_app in Hp by assumption.
  unfold lookup_node in Hp. rewrite lookup_app, Hl in Hp.
  destruct (removelast r); discriminate.
Qed.

(** [os.rename] to a path that does not exist keeps every file: the
    contents of the regular files are the same collection afterwards. *)
Lemma rename_fresh_leaves (fs fs' : Fs.node) (src dst : string) :
  Fs.rename fs src dst = Ok fs' -> Fs.exists_ fs dst = false ->
  leaves fs' ≡ₚ leaves fs.
Proof.
  unfold Fs.rename. intros H Hdst.
  destruct (Fs.resolve fs src) as [cs|]; [|discriminate].
  destruct (lookup fs cs) as [n|] eqn:Hn; [|discriminate].
  destruct (Fs.resolve fs dst) as [cd|] eqn:Hcd; [|discriminate].
  pose proof (exists_false_lookup fs dst cd Hdst Hcd) as Hnone.
  destruct (lookup_node fs (removelast cd)) eqn:Hp; [|discriminate]. simpl in H.
  destruct cs as [|c cs]; [discriminate|].
  destruct cd as [|d cd]; [discriminate|].
  case_bool_decide as Heq; [now injection H as <-|].
  rewrite Hnone in H.
  assert (Fs.is_prefix (c :: cs) (d :: cd) = false /\
          fs' = insert (remove fs (c :: cs)) (d :: cd) n) as [Hpre ->].
  { destruct n as [a|es].
    - injection H as <-. split; [|reflexivity].
      now apply (leaf_blocks_prefix fs _ _ a).
    - destruct (Fs.is_prefix (c :: cs) (d :: cd)); [discriminate|].
      now injection H as <-. }
  rewrite leaves_insert_fresh.
  - now apply leaves_remove.
  - discriminate.
  - now apply lookup_remove_none.
  - apply lookup_node_remove; [|assumption].
    destruct (Fs.is_prefix (c :: cs) (removelast (d :: cd))) eqn:E; [|reflexivity].
    apply is_prefix_removelast in E. congruence.
Qed.

Lemma move_fresh_leaves (fs fs' : Fs.node) (src dst : string) :
  Fs.move fs src dst = Ok fs' -> Fs.exists_ fs dst = false ->
  leaves fs' ≡ₚ leaves fs.
Proof.
  unfold Fs.move, Fs.isdir. intros H Hdst.
  assert (Fs.stat fs dst = None) as E.
  { unfold Fs.exists_ in Hdst. now destruct (Fs.stat fs dst). }
  rewrite E in H. now apply (rename_fresh_leaves fs fs' src dst).
Qed.

(** [get_unique_filename] returns, and what it returns does not exist. *)
Lemma get_unique_filename_spec (p : string) (w : world) :
  exists q, get_unique_filename p w = (Ok q, w) /\ Fs.exists_ (fs w) q = false.
Proof.
  unfold get_unique_filename, get_unique_filename_fuel.
  destruct (OsPath.splitext p) as [name ext] eqn:Hp.
  destruct (Fs.exists_ (fs w) p) eqn:E.
  - destruct (unique_loop_total (fs w) p name ext Hp) as (m & _ & Hres & Hfree & _).
    simpl in Hres |- *. rewrite Hres. eauto.
  - eauto.
Qed.

Lemma keeps_files_ret {A} (a : A) : keeps_files (ret a).
Proof. intros w. reflexivity. Qed.

Lemma keeps_files_raise {A} (e : exn) : keeps_files (raise e : M world A).
Proof. intros w. reflexivity. Qed.

Lemma keeps_files_lift {A} (r : result A) : keeps_files (lift r).
Proof. intros w. reflexivity. Qed.

Lemma keeps_files_bind {A B} (m : M world A) (k : A -> M world B) :
  keeps_files m -> (forall a, keeps_files (k a)) -> keeps_files (bind m k).
Proof.
  intros Hm Hk w. unfold bind. specialize (Hm w).
  destruct (m w) as [[a|e|] w1]; simpl in *; [|assumption..].
  now rewrite (Hk a w1).
Qed.

Lemma keeps_files_for_each {A} (l : list A) (body : A -> M world unit) :
  (forall x, keeps_files (body x)) -> keeps_files (for_each l body).
Proof.
  intros Hb. induction l as [|x l IH]; simpl.
  - apply keeps_files_ret.
  - apply keeps_files_bind; auto.
Qed.

Lemma keeps_files_fold_each {A B} (l : list A) (acc : B) (body : A -> B -> M world B) :
  (forall x b, keeps_files (body x b)) -> keeps_files (fold_each l acc body).
Proof.
  intros Hb. revert acc; induction l as [|x l IH]; intros acc; simpl.
  - apply keeps_files_ret.
  - apply keeps_files_bind; auto.
Qed.

Lemma keeps_files_try_except {A} (body : M world A) (catches : exn -> bool)
    (handler : exn -> M world A) :
  keeps_files body -> (forall e, keeps_files (handler e)) ->
  keeps_files (try_except body catches handler).
Proof.
  intros Hb Hh w. unfold try_except. specialize (Hb w).
  destruct (body w) as [[a|e|] w1]; simpl in *; try assumption.
  destruct (catches e); [|assumption]. now rewrite (Hh e w1).
Qed.

Lemma keeps_files_print (line : string) : keeps_files (print line).
Proof. intros w. reflexivity. Qed.

Lemma keeps_files_os_path_exists (p : string) : keeps_files (os_path_exists p).
Proof. intros w. reflexivity. Qed.

Lemma keeps_files_get_unique_filename (p : string) : keeps_files (get_unique_filename p).
Proof. intros w. destruct (get_unique_filename_spec p w) as (q & -> & _). reflexivity. Qed.

(** The walk keeps the files when the body of the loop does. *)
Lemma keeps_files_os_walk (fuel : nat) (top : string)
    (body : string -> list string -> list string -> M world unit) :
  (forall root dirs files, keeps_files (body root dirs files)) ->
  keeps_files (os_walk fuel top body).
Proof.
  intros Hb. revert top; induction fuel as [|fuel IH]; intros top.
  - apply keeps_files_lift.
  - cbn [os_walk]. apply keeps_files_bind; [intros w; reflexivity|].
    intros w. destruct (Fs.scandir (fs w) top) as [[dirs files]|];
      [|apply keeps_files_ret].
    apply keeps_files_bind; [apply Hb|]. intros _.
    apply keeps_files_fold_each. intros d last.
    apply keeps_files_bind; [apply IH|]. intros below. apply keeps_files_ret.
Qed.

(** Moving to a path that was just seen not to exist keeps the files. *)
Lemma keeps_files_move_fresh (src dst : string) (w : world) :
  Fs.exists_ (fs w) dst = false ->
  leaves (fs (snd (shutil_move src dst w))) ≡ₚ leaves (fs w).
Proof.
  intros Hdst. unfold shutil_move, fs_update.
  destruct (Fs.move (fs w) src dst) as [fs'| |] eqn:E; simpl; try reflexivity.
  now apply (move_fresh_leaves (fs w) fs' src dst).
Qed.

Lemma keeps_files_rename_fresh (str_of_exn : exn -> string) (src dst : string) (w : world) :
  Fs.exists_ (fs w) dst = false ->
  leaves (fs (snd (rename_or_print str_of_exn src dst w))) ≡ₚ leaves (fs w).
Proof.
  intros Hdst. unfold rename_or_print, try_except, os_rename, fs_update.
  destruct (Fs.rename (fs w) src dst) as [fs'| |] eqn:E; simpl; try reflexivity.
  now apply (rename_fresh_leaves (fs w) fs' src dst).
Qed.

End RenameFacts.

(** ** Paths of directory entries *)

Section JoinFacts.

#[local] Arguments String.append !_ _ / : simpl nomatch.

Lemma split_app_cons (c : ascii) (s t : string) :
  split c (s +:+ String c t) = split c s ++ split c t.
Proof.
  induction s as [|a s IH]; simpl.
  - now rewrite Ascii.eqb_refl.
  - destruct (Ascii.eqb a c); rewrite IH; [reflexivity|].
    pose proof (split_not_nil c s). destruct (split c s); [contradiction | reflexivity].
Qed.

Lemma endswith_char_inv (s : string) (c : ascii) :
  endswith_char s c = true -> exists s', s = s' +:+ String c "".
Proof.
  induction s as [|a s IH]; [discriminate|]. simpl.
  destruct s as [|b s].
  - intros H. apply Ascii.eqb_eq in H as ->. now exists "".
  - intros H. destruct (IH H) as [s' ->]. now exists (String a s').
Qed.

Lemma name_ok_inv (c : string) :
  name_ok c = true ->
  has_char "/" c = false /\ String.eqb c "" = false /\
  String.eqb c "." = false /\ String.eqb c ".." = false.
Proof.
  unfold name_ok. rewrite !andb_true_iff, !negb_true_iff. tauto.
Qed.

Lemma canon_snoc_empty (fs : Fs.node) (acc cs : list string) :
  Fs.canon fs acc (cs ++ [""]) =
  match Fs.canon fs acc cs with
  | Some r => if lookup_node fs r then Some r else None
  | None => None
  end.
Proof.
  revert acc; induction cs as [|c cs IH]; intros acc; simpl.
  - now destruct (lookup_node fs (rev acc)).
  - destruct (String.eqb c "" || String.eqb c ".")%bool.
    + destruct (lookup_node fs (rev acc)); [apply IH | reflexivity].
    + destruct (String.eqb c "..").
      * destruct (lookup_node fs (rev acc)); [apply IH | reflexivity].
      * apply IH.
Qed.

(** The path [os.path.join] builds for an entry of a directory resolves
    to the entry. *)
Lemma resolve_join (fs : Fs.node) (p name : string) (cs : list string) :
  Fs.resolve fs p = Some cs -> name_ok name = true ->
  Fs.resolve fs (OsPath.join p name) = Some (cs ++ [name]).
Proof.
  intros Hp Hname. destruct (name_ok_inv name Hname) as (Hsep & He & Hd & Hdd).
  unfold Fs.resolve in Hp. destruct (String.eqb_spec p "") as [->|Hpne]; [discriminate|].
  assert (startswith name "/" = false) as Hs.
  { unfold startswith. destruct name as [|a name]; [reflexivity|].
    simpl in Hsep. apply orb_false_iff in Hsep as [Ha _].
    change (String.prefix "/" (String a name))
      with (if Ascii.ascii_dec "/" a then String.prefix "" name else false).
    destruct (Ascii.ascii_dec "/" a) as [<-|]; [|reflexivity].
    rewrite Ascii.eqb_refl in Ha. discriminate. }
  assert (forall q, String.eqb (q +:+ name) "" = false) as Hne.
  { intros q. apply String.eqb_neq. intros E. apply (f_equal String.length) in E.
    rewrite str_length_app in E. destruct name; [discriminate | simpl in E; lia]. }
  unfold OsPath.join. rewrite Hs.
  replace (String.eqb p "") with false by (symmetry; now apply String.eqb_neq).
  simpl. unfold Fs.resolve, OsPath.sep in *.
  destruct (endswith_char p "/") eqn:Hend.
  - destruct (endswith_char_inv p "/" Hend) as [p' ->].
    rewrite Hne. rewrite split_app_cons in Hp. simpl in Hp.
    rewrite canon_snoc_empty in Hp.
    destruct (Fs.canon fs [] (split "/" p')) as [r|] eqn:Hr; [|discriminate].
    destruct (lookup_node fs r); [|discriminate]. injection Hp as ->.
    rewrite app_assoc_s. simpl.
    rewrite split_app_cons, (split_nosep "/" name Hsep).
    now rewrite (canon_snoc fs [] _ name He Hd Hdd), Hr.
  - change (p ++ "/" ++ name)%string with (p +:+ String "/" name).
    replace (String.eqb (p +:+ String "/" name) "") with false.
    + rewrite split_app_cons, (split_nosep "/" name Hsep).
      now rewrite (canon_snoc fs [] _ name He Hd Hdd), Hp.
    + symmetry. apply String.eqb_neq. intros E. apply (f_equal String.length) in E.
      rewrite str_length_app in E. simpl in E. lia.
Qed.

End JoinFacts.

(** ** Well-formed trees *)

Section WfFacts.

Context {A : Type}.
Implicit Types (t n : tree A) (cs : list string) (es : list (string * tree A)).

Lemma wf_node es :
  wf (Node es) = true ->
  NoDup (map fst es) /\
  forall c m, In (c, m) es -> name_ok c = true /\ wf m = true.
Proof.
  cbn [wf]. rewrite andb_true_iff, bool_decide_eq_true, forallb_forall.
  intros [Hall Hnd]. split; [assumption|]. intros c m Hin.
  specialize (Hall _ Hin). simpl in Hall. now apply andb_true_iff in Hall.
Qed.

Lemma assoc_NoDup es (c : string) (m : tree A) :
  NoDup (map fst es) -> In (c, m) es -> assoc c es = Some m.
Proof.
  induction es as [|[k v] es IH]; simpl; [contradiction|].
  intros Hnd [[= -> ->] | Hin].
  - now rewrite String.eqb_refl.
  - apply NoDup_cons in Hnd as [Hk Hnd].
    destruct (String.eqb_spec c k) as [->|]; [|auto].
    exfalso. apply Hk. apply list_elem_of_In, in_map_iff. now exists (k, m).
Qed.

Lemma wf_lookup t cs n : wf t = true -> lookup t cs = Some n -> wf n = true.
Proof.
  revert t; induction cs as [|c cs IH]; intros t Hwf; simpl.
  - now intros [= <-].
  - destruct t as [a|es]; [discriminate|].
    destruct (assoc c es) as [m|] eqn:E; [|discriminate].
    apply IH. apply assoc_In in E as [_ E].
    destruct (wf_node es Hwf) as [_ Hall]. now apply (Hall c m).
Qed.

Lemma height_child es (c : string) (m : tree A) :
  In (c, m) es -> height m < height (Node es).
Proof.
  cbn [height]. induction es as [|e es IH]; simpl; [contradiction|].
  intros [-> | H]; simpl; [lia|]. specialize (IH H). lia.
Qed.

Lemma lookup_height t cs n : lookup t cs = Some n -> height n <= height t.
Proof.
  revert t; induction cs as [|c cs IH]; intros t; simpl.
  - intros [= <-]. lia.
  - destruct t as [a|es]; [discriminate|].
    destruct (assoc c es) as [m|] eqn:E; [|discriminate].
    intros H. apply IH in H. apply assoc_In in E as [_ E].
    apply height_child in E. lia.
Qed.

(** In a well-formed tree an entry that was unlinked is gone. *)
Lemma assoc_remove_same es (c : string) :
  NoDup (map fst es) -> assoc c (assoc_remove c es) = None.
Proof.
  induction es as [|[k v] es IH]; simpl; [reflexivity|].
  intros Hnd. apply NoDup_cons in Hnd as [Hk Hnd].
  destruct (String.eqb_spec c k) as [->|Hne].
  - destruct (assoc k es) as [m|] eqn:E; [|reflexivity].
    exfalso. apply Hk. apply assoc_In in E as [E _]. now apply list_elem_of_In.
  - simpl. destruct (String.eqb_spec c k); [contradiction | auto].
Qed.

Lemma lookup_remove_same t cs n :
  wf t = true -> cs <> [] -> lookup t cs = Some n -> lookup (remove t cs) cs = None.
Proof.
  revert t; induction cs as [|c cs IH]; intros t Hwf Hne; [contradiction|].
  destruct t as [a|es]; [discriminate|]. cbn [lookup].
  destruct (assoc c es) as [m|] eqn:E; [|discriminate].
  destruct (wf_node es Hwf) as [Hnd Hall].
  destruct cs as [|c' cs].
  - intros _. cbn [remove lookup]. now rewrite assoc_remove_same.
  - intros H. cbn [remove]. rewrite E. cbn [lookup]. rewrite assoc_set_same.
    apply (IH m); [|discriminate|exact H].
    apply assoc_In in E as [_ E]. now apply (Hall c m).
Qed.

End WfFacts.

(** ** [get_tree_size] *)

Section TreeSizeFacts.

Import Files.




End TreeSizeFacts.



(** ** The movers and the flattener keep the files *)

Section KeepsFilesFacts.

Import Files.

Lemma move_file_suffix_keeps_files (dir_path root file : string) :
  keeps_files (move_file dir_path true root file).
Proof.
  intros w. unfold move_file, bind, os_path_exists.
  destruct (Fs.exists_ (fs w) (OsPath.join dir_path file)) eqn:E; simpl.
  - destruct (get_unique_filename_spec (OsPath.join dir_path file) w) as (q & -> & _).
    reflexivity.
  - now apply keeps_files_move_fresh.
Qed.

Lemma safe_rename_file_keeps_files (str_of_exn : exn -> string) (new_fpath : string)
    (find_unique_filename : bool) (root file : string) :
  keeps_files (safe_rename_file str_of_exn new_fpath find_unique_filename root file).
Proof.
  intros w. unfold safe_rename_file, bind, os_path_exists.
  destruct (Fs.exists_ (fs w) (OsPath.join new_fpath file)) eqn:E; simpl.
  - destruct find_unique_filename; [|reflexivity].
    destruct (get_unique_filename_spec (OsPath.join new_fpath file) w) as (q & -> & Hq).
    now apply keeps_files_rename_fresh.
  - now apply keeps_files_rename_fresh.
Qed.

Lemma safe_rename_fuel_keeps_files (str_of_exn : exn -> string) (fuel : nat)
    (old_fpath : fpath) (new_fpath : string) (find_unique_filename : bool) :
  keeps_files (safe_rename_fuel str_of_exn fuel old_fpath new_fpath find_unique_filename).
Proof.
  revert old_fpath new_fpath; induction fuel as [|fuel IH]; intros old_fpath new_fpath.
  - apply keeps_files_lift.
  - cbn [safe_rename_fuel]. unfold safe_rename_body.
    destruct old_fpath as [old|old]; [|apply keeps_files_raise].
    intros w. unfold bind at 1, get.
    destruct (Fs.isdir (fs w) old); [|reflexivity].
    unfold bind at 1, os_path_exists.
    destruct (Fs.exists_ (fs w) new_fpath) eqn:E; cbn [negb].
    + apply keeps_files_bind.
      * apply keeps_files_os_walk. intros root dirs files.
        apply keeps_files_for_each. intros file.
        apply safe_rename_file_keeps_files.
      * intros [dirs|]; [|apply keeps_files_raise].
        apply keeps_files_for_each. intros dir. apply IH.
    + now apply keeps_files_rename_fresh.
Qed.

Lemma os_rmdir_keeps_files (p : string) : keeps_files (os_rmdir p).
Proof.
  intros w. unfold os_rmdir, fs_update, Fs.rmdir.
  destruct (Fs.resolve (fs w) p) as [[|c cs]|]; try reflexivity.
  destruct (lookup (fs w) (c :: cs)) as [[a|[|e es]]|] eqn:E; try reflexivity.
  pose proof (leaves_remove (c :: cs) (fs w) (Node []) ltac:(discriminate) E) as P.
  cbn [leaves flat_map] in P. rewrite app_nil_r in P. exact P.
Qed.

End KeepsFilesFacts.




(** X4. With [duplicate_suffix=True] and [del_empty_dirs=False],
    [move_files_to_top] keeps every file: whether it returns or
    raises, the contents of the regular files are the same collection
    as before. *)
Theorem move_files_to_top_keeps_files (dir_path : string) (w : Files.world) :
  leaves (Files.fs (snd (Files.move_files_to_top dir_path false true w)))
  ≡ₚ leaves (Files.fs w).
Proof.
  revert w. change (Files.keeps_files (Files.move_files_to_top dir_path false true)).
  unfold Files.move_files_to_top.
  apply keeps_files_bind; [intros w; reflexivity|]. intros w0.
  apply keeps_files_bind.
  - apply keeps_files_os_walk. intros root dirs files.
    unfold Files.move_files_to_top_body.
    destruct (String.eqb root dir_path); [apply keeps_files_ret|].
    apply keeps_files_for_each. intros file. apply move_file_suffix_keeps_files.
  - intros _. apply keeps_files_bind; [intros w; reflexivity|]. intros w.
    apply keeps_files_bind; [apply keeps_files_lift|]. intros names.
    apply keeps_files_ret.
Qed.

(** X5. [remove_empty_dirs] removes directories only: whether it
    returns or raises, the contents of the regular files are the same
    collection as before. *)
Theorem remove_empty_dirs_keeps_files (dir_path : string) (w : Files.world) :
  leaves (Files.fs (snd (Files.remove_empty_dirs dir_path w))) ≡ₚ leaves (Files.fs w).
Proof.
  revert w. change (Files.keeps_files (Files.remove_empty_dirs dir_path)).
  unfold Files.remove_empty_dirs.
  apply keeps_files_bind; [intros w; reflexivity|]. intros w0.
  apply keeps_files_bind; [|intros; apply keeps_files_ret].
  apply keeps_files_os_walk. intros root dirs files.
  unfold Files.remove_empty_dirs_body.
  destruct dirs; [destruct files|]; try apply keeps_files_ret.
  apply os_rmdir_keeps_files.
Qed.

(** X6. [safe_rename] of the legacy [files.py] keeps every file, under
    either collision policy: whether it returns or raises, the
    contents of the regular files are the same collection as before. *)
Theorem legacy_safe_rename_keeps_files (str_of_exn : exn -> string)
    (old_fpath : Files.fpath) (new_fpath : string) (find_unique_filename : bool)
    (w : Files.world) :
  leaves (Files.fs (snd (Files.safe_rename str_of_exn old_fpath new_fpath
                           find_unique_filename w)))
  ≡ₚ leaves (Files.fs w).
Proof. apply safe_rename_fuel_keeps_files. Qed.

(** X7. [safe_rename] of the legacy [files.py] moves directories only:
    given a path that is not a directory, a regular file included, it
    returns without renaming or printing anything. *)
Theorem legacy_safe_rename_ignores_files (str_of_exn : exn -> string)
    (old new_fpath : string) (find_unique_filename : bool) (w : Files.world) :
  Fs.isdir (Files.fs w) old = false ->
  Files.safe_rename str_of_exn (Files.PathObj old) new_fpath find_unique_filename w
    = (Ok tt, w).
Proof.
  intros H. unfold Files.safe_rename. cbn [Files.safe_rename_fuel].
  unfold Files.safe_rename_body, bind, get. now rewrite H.
Qed.

Lemma legacy_safe_rename_ignores_files_witness :
  Files.safe_rename (fun _ => "") (Files.PathObj "root/x.txt") "root/z.txt" true
    Scenario.collision = (Ok tt, Scenario.collision).
Proof. apply legacy_safe_rename_ignores_files. reflexivity. Defined.

(** ** Directory listings and the flattener's edge cases *)

Section FlattenEdgeFacts.

Import Files.

Lemma filter_none {B} (f : B -> bool) (l : list B) :
  (forall x, In x l -> f x = false) -> List.filter f l = [].
Proof.
  induction l as [|x l IH]; intros H; simpl; [reflexivity|].
  rewrite (H x) by now left. apply IH. intros y Hy. apply H. now right.
Qed.

(** In a well-formed filesystem the path joined for an entry of a
    directory leads to that entry. *)
Lemma stat_join (fs : Fs.node) (p name : string) (cs : list string)
    (es : list (string * Fs.node)) (m : Fs.node) :
  wf fs = true -> Fs.resolve fs p = Some cs -> lookup fs cs = Some (Node es) ->
  In (name, m) es -> Fs.stat fs (OsPath.join p name) = Some m.
Proof.
  intros Hwf Hres Hl Hin.
  pose proof (wf_lookup fs cs _ Hwf Hl) as Hwf'.
  destruct (wf_node es Hwf') as [Hnd Hall]. destruct (Hall name m Hin) as [Hname _].
  unfold Fs.stat. rewrite (resolve_join fs p name cs Hres Hname).
  rewrite lookup_snoc, Hl. now apply assoc_NoDup.
Qed.

End FlattenEdgeFacts.



(** X9. On a directory of a well-formed filesystem that holds regular
    files only, [move_files_to_top] returns and changes nothing,
    whatever the flags: flattening what is flat is a no-op. *)
Theorem move_files_to_top_flat (dir_path : string)
    (del_empty_dirs duplicate_suffix : bool) (w : Files.world)
    (es : list (string * Fs.node)) :
  wf (Files.fs w) = true ->
  Fs.stat (Files.fs w) dir_path = Some (Node es) ->
  forallb (fun e => negb (is_node (snd e))) es = true ->
  Files.move_files_to_top dir_path del_empty_dirs duplicate_suffix w = (Ok tt, w).
Proof.
  intros Hwf Hstat Hflat.
  assert (List.filter (fun e : string * Fs.node => is_node (snd e)) es = []) as Hdirs.
  { apply filter_none. intros e He. rewrite forallb_forall in Hflat.
    apply negb_true_iff. now apply Hflat. }
  unfold Files.move_files_to_top, bind, get. cbn [Files.os_walk].
  unfold bind, get, Fs.scandir. rewrite Hstat, Hdirs. simpl.
  unfold Files.move_files_to_top_body. rewrite String.eqb_refl. simpl.
  unfold lift, Fs.listdir. rewrite Hstat.
  assert (List.filter (fun d => Fs.isdir (Files.fs w) (OsPath.join dir_path d))
            (map fst es) = []) as ->.
  { apply filter_none. intros d Hd. apply in_map_iff in Hd as ([name m] & <- & Hin).
    unfold Fs.stat in Hstat.
    destruct (Fs.resolve (Files.fs w) dir_path) as [cs|] eqn:Hres; [|discriminate].
    cbn [fst]. unfold Fs.isdir. rewrite (stat_join _ _ _ cs es m Hwf Hres Hstat Hin).
    rewrite forallb_forall in Hflat. specialize (Hflat _ Hin). simpl in Hflat.
    now destruct m. }
  now destruct del_empty_dirs.
Qed.

Lemma move_files_to_top_flat_witness :
  Files.move_files_to_top "root/sub" true false Scenario.collision
    = (Ok tt, Scenario.collision).
Proof.
  apply (move_files_to_top_flat _ _ _ _ [("x.txt", Fs.File "B")]); reflexivity.
Defined.

(** X10. For a path that exists, [get_unique_filename] returns the
    candidate that [f"{name}({suffix}).{ext}"] builds for the least
    counter [suffix >= 1] that is not in use: every candidate of a
    smaller counter exists, the one returned does not, and nothing is
    changed. *)
Theorem get_unique_filename_least (p name ext : string) (w : Files.world) :
  Fs.exists_ (Files.fs w) p = true ->
  OsPath.splitext p = (name, ext) ->
  exists m, 1 <= m /\
    Files.get_unique_filename p w = (Ok (Files.candidate name ext m), w) /\
    Fs.exists_ (Files.fs w) (Files.candidate name ext m) = false /\
    forall k, 1 <= k < m -> Fs.exists_ (Files.fs w) (Files.candidate name ext k) = true.
Proof.
  intros He Hp. unfold Files.get_unique_filename, Files.get_unique_filename_fuel.
  rewrite Hp, He.
  destruct (unique_loop_total (Files.fs w) p name ext Hp) as (m & Hm & Hres & Hfree & Hbusy).
  exists m. simpl in Hres |- *. rewrite Hres. auto.
Qed.

Lemma get_unique_filename_least_witness :
  exists m, 1 <= m /\
    Files.get_unique_filename "root/x.txt" Scenario.collision
      = (Ok (Files.candidate "root/x" ".txt" m), Scenario.collision) /\
    Fs.exists_ (Files.fs Scenario.collision) (Files.candidate "root/x" ".txt" m) = false /\
    forall k, 1 <= k < m ->
      Fs.exists_ (Files.fs Scenario.collision) (Files.candidate "root/x" ".txt" k) = true.
Proof.
  apply (get_unique_filename_least "root/x.txt"); reflexivity.
Defined.

(** ** What a removal and a new entry leave in place *)

Section TreeUpdateFacts.

Context {A : Type}.
Implicit Types (t n : tree A) (cs : list string) (es : list (string * tree A)).

Lemma lookup_remove_parent t cs (d : string) es :
  lookup t cs = Some (Node es) ->
  lookup (remove t (cs ++ [d])) cs = Some (Node (assoc_remove d es)).
Proof.
  revert t; induction cs as [|c cs IH]; intros t.
  - simpl. now intros [= ->].
  - destruct t as [a|es0]; [discriminate|]. cbn [lookup].
    destruct (assoc c es0) as [m|] eqn:E; [|discriminate].
    intros H. change ((c :: cs) ++ [d]) with (c :: (cs ++ [d])). cbn [remove].
    specialize (IH m H).
    destruct (cs ++ [d]) eqn:Ecs; [now destruct cs|]. rewrite E.
    cbn [lookup]. now rewrite assoc_set_same.
Qed.

Lemma lookup_node_remove_leaf t cs a q :
  wf t = true -> lookup t cs = Some (Leaf a) ->
  lookup_node (remove t cs) q = lookup_node t q.
Proof.
  revert t q; induction cs as [|c cs IH]; intros t q Hwf; [reflexivity|].
  destruct t as [b|es]; [reflexivity|]. cbn [lookup].
  destruct (assoc c es) as [m|] eqn:E; [|discriminate]. intros Hl.
  destruct (wf_node es Hwf) as [Hnd Hall].
  destruct q as [|d q].
  - cbn [remove]. destruct cs; [reflexivity|]. now rewrite E.
  - destruct cs as [|c' cs].
    + cbn [remove]. unfold lookup_node. cbn [lookup]. simpl in Hl. injection Hl as ->.
      destruct (String.eqb_spec c d) as [->|Hne].
      * rewrite assoc_remove_same, E by assumption. now destruct q.
      * rewrite assoc_remove_other by now apply String.eqb_neq. reflexivity.
    + cbn [remove]. rewrite E. unfold lookup_node. cbn [lookup].
      destruct (String.eqb_spec c d) as [->|Hne].
      * rewrite assoc_set_same, E. apply (IH m q); [|assumption].
        apply assoc_In in E as [_ E]. now apply (Hall d m).
      * rewrite assoc_set_other by now apply String.eqb_neq. reflexivity.
Qed.

Lemma lookup_node_insert_leaf t cd a q :
  lookup t cd = None -> lookup_node (insert t cd (Leaf a)) q = lookup_node t q.
Proof.
  revert t q; induction cd as [|c cd IH]; intros t q; [reflexivity|].
  destruct t as [b|es]; [reflexivity|]. cbn [lookup insert].
  destruct cd as [|c' cd].
  - destruct (assoc c es) as [m|] eqn:E; [discriminate|]. intros _.
    destruct q as [|d q]; [reflexivity|]. unfold lookup_node. cbn [lookup].
    destruct (String.eqb_spec c d) as [->|Hne].
    + rewrite assoc_set_same, E. now destruct q.
    + rewrite assoc_set_other by now apply String.eqb_neq. reflexivity.
  - destruct (assoc c es) as [m|] eqn:E; [|reflexivity]. intros Hl.
    destruct q as [|d q]; [reflexivity|]. unfold lookup_node. cbn [lookup].
    destruct (String.eqb_spec c d) as [->|Hne].
    + rewrite assoc_set_same, E. now apply (IH m q).
    + rewrite assoc_set_other by now apply String.eqb_neq. reflexivity.
Qed.

Lemma lookup_insert_none cd t p x :
  Fs.is_prefix cd p = false -> lookup t p = None -> lookup (insert t cd x) p = None.
Proof.
  revert t p; induction cd as [|c cd IH]; intros t p; [discriminate|].
  destruct p as [|d p]; [discriminate|].
  destruct t as [b|es]; [reflexivity|]. cbn [Fs.is_prefix insert lookup].
  destruct cd as [|c' cd].
  - destruct (String.eqb_spec c d) as [->|Hne]; [now destruct p|]. intros _.
    now rewrite assoc_set_other by now apply String.eqb_neq.
  - destruct (assoc c es) as [m|] eqn:E; [|now cbn [lookup]].
    cbn [lookup]. destruct (String.eqb_spec c d) as [->|Hne].
    + rewrite assoc_set_same, E. simpl. apply IH.
    + intros _. now rewrite assoc_set_other by now apply String.eqb_neq.
Qed.

Lemma lookup_insert_new t cd x :
  cd <> [] -> lookup_node t (removelast cd) = true -> lookup (insert t cd x) cd = Some x.
Proof.
  revert t; induction cd as [|c cd IH]; intros t Hne; [contradiction|].
  destruct cd as [|c' cd].
  - unfold lookup_node. simpl. destruct t as [b|es]; [discriminate|]. intros _.
    now rewrite assoc_set_same.
  - change (removelast (c :: c' :: cd)) with (c :: removelast (c' :: cd)).
    unfold lookup_node. cbn [lookup insert]. destruct t as [b|es]; [discriminate|].
    destruct (assoc c es) as [m|] eqn:E; [|discriminate]. intros H.
    cbn [lookup]. rewrite assoc_set_same. apply IH; [discriminate | exact H].
Qed.

End TreeUpdateFacts.

Section ResolveFacts.

(** Two filesystems with the same directories resolve paths alike. *)
Lemma canon_ext (fs fs' : Fs.node) (acc l : list string) :
  (forall q, lookup_node fs' q = lookup_node fs q) ->
  Fs.canon fs' acc l = Fs.canon fs acc l.
Proof.
  intros H. revert acc; induction l as [|c l IH]; intros acc; simpl; [reflexivity|].
  rewrite H. destruct (String.eqb c "" || String.eqb c ".")%bool.
  - destruct (lookup_node fs (rev acc)); [apply IH | reflexivity].
  - destruct (String.eqb c "..").
    + destruct (lookup_node fs (rev acc)); [apply IH | reflexivity].
    + apply IH.
Qed.



End ResolveFacts.

Section MoveFacts.

Lemma resolve_ext (fs fs' : Fs.node) (p : string) :
  (forall q, lookup_node fs' q = lookup_node fs q) ->
  Fs.resolve fs' p = Fs.resolve fs p.
Proof.
  intros H. unfold Fs.resolve. destruct (String.eqb p ""); [reflexivity|].
  now apply canon_ext.
Qed.

(** A regular file renamed to a free place whose directory exists: the
    new filesystem, what it holds at the two places, and that paths
    resolve in it as before. *)
Lemma rename_file_fresh (fs : Fs.node) (src dst content : string) (cs cd : list string) :
  wf fs = true ->
  Fs.resolve fs src = Some cs -> lookup fs cs = Some (Leaf content) ->
  Fs.resolve fs dst = Some cd -> lookup fs cd = None ->
  lookup_node fs (removelast cd) = true ->
  exists fs', Fs.rename fs src dst = Ok fs' /\
    (forall q, lookup_node fs' q = lookup_node fs q) /\
    lookup fs' cd = Some (Leaf content) /\ lookup fs' cs = None.
Proof.
  intros Hwf Hrs Hls Hrd Hld Hparent.
  assert (cs <> cd) as Hne by (intros ->; congruence).
  assert (cd <> []) as Hcd by (intros ->; discriminate).
  assert (cs <> []) as Hcs.
  { intros ->. simpl in Hls. injection Hls as ->.
    unfold lookup_node in Hparent. now destruct (removelast cd). }
  pose proof (leaf_blocks_prefix fs cs cd content Hls Hne Hparent) as Hpre.
  assert (Fs.is_prefix cd cs = false) as Hpre'.
  { destruct (Fs.is_prefix cd cs) eqn:E; [|reflexivity].
    apply is_prefix_spec in E as [r ->]. rewrite lookup_app, Hld in Hls. discriminate. }
  assert (forall q, lookup_node (insert (remove fs cs) cd (Leaf content)) q
                    = lookup_node fs q) as Hsame.
  { intros q. rewrite lookup_node_insert_leaf by now apply lookup_remove_none.
    now apply (lookup_node_remove_leaf fs cs content). }
  exists (insert (remove fs cs) cd (Leaf content)). repeat split.
  - unfold Fs.rename. rewrite Hrs, Hls, Hrd, Hparent, Hld. simpl.
    destruct cs as [|c cs]; [contradiction|]. destruct cd as [|d cd]; [contradiction|].
    now rewrite bool_decide_eq_false_2.
  - exact Hsame.
  - apply lookup_insert_new; [assumption|].
    now rewrite (lookup_node_remove_leaf fs cs content).
  - apply lookup_insert_none; [assumption|]. now apply (lookup_remove_same fs cs (Leaf content)).
Qed.

End MoveFacts.



(** X12. [remove_empty_dirs] works top-down and goes one level only: on
    a directory that holds nothing but one empty directory, it removes
    the inner one and leaves the outer one behind, now empty. *)
Theorem remove_empty_dirs_leaves_parent (dir_path d : string) (cs : list string)
    (w : Files.world) :
  wf (Files.fs w) = true ->
  Fs.resolve (Files.fs w) dir_path = Some cs ->
  lookup (Files.fs w) cs = Some (Node [(d, Node [])]) ->
  exists w', Files.remove_empty_dirs dir_path w = (Ok tt, w') /\
    lookup (Files.fs w') cs = Some (Node []) /\
    lookup (Files.fs w') (cs ++ [d]) = None.
Proof.
  intros Hwf Hres Hl.
  pose proof (wf_lookup _ _ _ Hwf Hl) as Hwf'.
  destruct (wf_node _ Hwf') as [_ Hall].
  destruct (Hall d (Node []) (or_introl eq_refl)) as [Hname _].
  pose proof (lookup_height _ _ _ Hl) as Hh. cbn in Hh.
  assert (lookup (Files.fs w) (cs ++ [d]) = Some (Node [])) as Hl'.
  { rewrite lookup_snoc, Hl. simpl. now rewrite String.eqb_refl. }
  exists {| Files.fs := remove (Files.fs w) (cs ++ [d]); Files.out := Files.out w |}.
  split; [|split].
  - unfold Files.remove_empty_dirs, bind, get.
    destruct (height (Files.fs w)) as [|h]; [lia|]. cbn [Files.os_walk].
    unfold bind, get, Fs.scandir at 1, Fs.stat at 1. rewrite Hres, Hl. simpl.
    unfold bind, get, Fs.scandir, Fs.stat.
    rewrite (resolve_join _ _ _ _ Hres Hname), Hl'. simpl.
    unfold Files.os_rmdir, Files.fs_update, Fs.rmdir.
    rewrite (resolve_join _ _ _ _ Hres Hname).
    destruct (cs ++ [d]) as [|c cs'] eqn:E; [now destruct cs|]. now rewrite Hl'.
  - cbn [Files.fs]. rewrite (lookup_remove_parent _ _ d _ Hl). simpl.
    now rewrite String.eqb_refl.
  - cbn [Files.fs]. apply (lookup_remove_same _ _ (Node [])); [assumption| |assumption].
    now destruct cs.
Qed.

Lemma remove_empty_dirs_leaves_parent_witness :
  exists w', Files.remove_empty_dirs "root"
      {| Files.fs := Fs.Dir [("root", Fs.Dir [("sub", Fs.Dir [])])]; Files.out := [] |}
      = (Ok tt, w') /\
    lookup (Files.fs w') ["root"] = Some (Node []) /\
    lookup (Files.fs w') (["root"] ++ ["sub"]) = None.
Proof.
  apply (remove_empty_dirs_leaves_parent "root" "sub" ["root"]
           {| Files.fs := Fs.Dir [("root", Fs.Dir [("sub", Fs.Dir [])])]; Files.out := [] |});
    reflexivity.
Defined.

(** X13. [safe_rename] of the current [files.py] moves a regular file
    to a free path whose directory exists: in a well-formed filesystem
    the call returns, the new path then holds the content of the file,
    the old path no longer exists and nothing is printed. *)
Theorem safe_rename_moves_file (old_fpath new_fpath content : string)
    (overwrite check_duplicate : bool) (cd : list string) (w : Files.world) :
  wf (Files.fs w) = true ->
  Fs.stat (Files.fs w) old_fpath = Some (Leaf content) ->
  Fs.resolve (Files.fs w) new_fpath = Some cd ->
  lookup (Files.fs w) cd = None ->
  lookup_node (Files.fs w) (removelast cd) = true ->
  exists w',
    Files.Current.safe_rename old_fpath new_fpath overwrite check_duplicate w = (Ok tt, w') /\
    Fs.stat (Files.fs w') new_fpath = Some (Leaf content) /\
    Fs.exists_ (Files.fs w') old_fpath = false /\
    Files.out w' = Files.out w.
Proof.
  intros Hwf Hold Hrd Hld Hparent.
  unfold Fs.stat in Hold.
  destruct (Fs.resolve (Files.fs w) old_fpath) as [cs|] eqn:Hrs; [|discriminate].
  destruct (rename_file_fresh _ old_fpath new_fpath content cs cd
              Hwf Hrs Hold Hrd Hld Hparent) as (fs' & Hren & Hsame & Hnew & Hgone).
  assert (Fs.stat (Files.fs w) new_fpath = None) as Hstat
    by (unfold Fs.stat; now rewrite Hrd).
  exists {| Files.fs := fs'; Files.out := Files.out w |}. repeat split.
  - unfold Files.Current.safe_rename, bind, Files.get_unique_filename,
      Files.get_unique_filename_fuel.
    destruct (OsPath.splitext new_fpath) as [name ext].
    unfold Fs.exists_. rewrite Hstat.
    unfold Files.shutil_move, Files.fs_update, Fs.move, Fs.isdir.
    now rewrite Hstat, Hren.
  - cbn [Files.fs]. unfold Fs.stat. now rewrite (resolve_ext _ _ _ Hsame), Hrd.
  - cbn [Files.fs]. unfold Fs.exists_, Fs.stat.
    now rewrite (resolve_ext _ _ _ Hsame), Hrs, Hgone.
Qed.

Lemma safe_rename_moves_file_witness :
  exists w',
    Files.Current.safe_rename "root/sub/x.txt" "root/y.txt" false false Scenario.collision
      = (Ok tt, w') /\
    Fs.stat (Files.fs w') "root/y.txt" = Some (Leaf "B") /\
    Fs.exists_ (Files.fs w') "root/sub/x.txt" = false /\
    Files.out w' = Files.out Scenario.collision.
Proof.
  apply (safe_rename_moves_file "root/sub/x.txt" "root/y.txt" "B" false false
           ["root"; "y.txt"]); reflexivity.
Defined.

(** * More of [utils.py] *)

(** ** Batches reported to the progress bar *)

Section ProgressFacts.

Import Joblib.

Lemma call_callback_counts (c : callback_class) (k : nat) (w : world) :
  exists w', call_callback c k w = (Ok tt, w') /\
    BatchCompletionCallBack w' = BatchCompletionCallBack w /\
    forall u, n (bars w' u) = n (bars w u) + reports_to u c * k /\
              closed (bars w' u) = closed (bars w u).
Proof.
  revert w; induction c as [| id | t base IH]; intros w.
  - exists w. repeat split; simpl; lia.
  - exists w. repeat split; simpl; lia.
  - cbn [call_callback]. unfold bind, tqdm_update.
    destruct (IH (set_bar t {| n := n (bars w t) + k; closed := closed (bars w t) |} w))
      as (w' & Hrun & Hcb & Hbars).
    exists w'. split; [exact Hrun|]. split; [exact Hcb|].
    intros u. destruct (Hbars u) as [Hn Hc]. rewrite Hn, Hc. cbn [reports_to].
    unfold set_bar. cbn [bars]. rewrite (Nat.eqb_sym t u).
    destruct (Nat.eqb_spec u t) as [->|Hne]; cbn [n closed]; split; (reflexivity || lia).
Qed.

Lemma run_batches_counts (batch_sizes : list nat) (w : world) :
  exists w', run_batches batch_sizes w = (Ok tt, w') /\
    BatchCompletionCallBack w' = BatchCompletionCallBack w /\
    forall u, n (bars w' u)
                = n (bars w u) + reports_to u (BatchCompletionCallBack w) * list_sum batch_sizes /\
              closed (bars w' u) = closed (bars w u).
Proof.
  unfold run_batches. revert w; induction batch_sizes as [|k l IH]; intros w.
  - exists w. repeat split; simpl; lia.
  - cbn [for_each]. unfold bind at 1, batch_completed at 1, bind at 1, get.
    destruct (call_callback_counts (BatchCompletionCallBack w) k w) as (w1 & Hrun & Hcb & Hbars).
    rewrite Hrun. destruct (IH w1) as (w2 & Hrun2 & Hcb2 & Hbars2).
    exists w2. split; [exact Hrun2|]. split; [congruence|].
    intros u. destruct (Hbars u) as [Hn Hc], (Hbars2 u) as [Hn2 Hc2].
    rewrite Hn2, Hc2, Hn, Hc, Hcb.
    change (list_sum (k :: l)) with (k + list_sum l).
    rewrite Nat.mul_add_distr_l. split; [lia | reflexivity].
Qed.

End ProgressFacts.


(** X15. Once the [with tqdm_joblib(bar)] statement is left, batches
    no longer reach the bar, provided no class that was installed
    before reports to it: its count stays what it was on exit. *)
Theorem tqdm_joblib_detaches {A : Type} (tqdm_object : nat)
    (body : nat -> M Joblib.world A) (batch_sizes : list nat) (w : Joblib.world) :
  fst (Joblib.tqdm_joblib tqdm_object body w) <> OutOfFuel ->
  Joblib.reports_to tqdm_object (Joblib.BatchCompletionCallBack w) = 0 ->
  let w' := snd (Joblib.tqdm_joblib tqdm_object body w) in
  Joblib.bars (snd (Joblib.run_batches batch_sizes w')) tqdm_object
  = Joblib.bars w' tqdm_object.
Proof.
  intros Hfuel Hold w'.
  assert (Joblib.BatchCompletionCallBack w' = Joblib.BatchCompletionCallBack w) as Hcb.
  { subst w'. revert Hfuel.
    unfold Joblib.tqdm_joblib, bind, get, Joblib.set_callback, Joblib.try_finally,
      Joblib.tqdm_close, Joblib.set_bar. simpl.
    destruct (body tqdm_object _) as [[a|e|] w1]; simpl; intros H;
      [reflexivity | reflexivity | contradiction]. }
  destruct (run_batches_counts batch_sizes w') as (w2 & Hrun & _ & Hbars).
  rewrite Hrun. cbn [snd]. destruct (Hbars tqdm_object) as [Hn Hc].
  rewrite Hcb, Hold in Hn. simpl in Hn. rewrite Nat.add_0_r in Hn.
  destruct (Joblib.bars w2 tqdm_object), (Joblib.bars w' tqdm_object).
  simpl in *. congruence.
Qed.

Lemma tqdm_joblib_detaches_witness :
  let w' := snd (Joblib.tqdm_joblib 0 (fun _ => Joblib.run_batches [3; 2])
                   Scenario.patched_before) in
  Joblib.bars (snd (Joblib.run_batches [4] w')) 0 = Joblib.bars w' 0.
Proof.
  apply (tqdm_joblib_detaches 0 (fun _ => Joblib.run_batches [3; 2]) [4]
           Scenario.patched_before); [discriminate | reflexivity].
Defined.

(** ** Keys that an update does not touch *)

Section UnrelatedFacts.

Context {A : Type}.
Implicit Types (t n x : tree A) (cs p : list string) (es : list (string * tree A)).

Lemma lookup_remove_other cs t p :
  Fs.is_prefix cs p = false -> Fs.is_prefix p cs = false ->
  lookup (remove t cs) p = lookup t p.
Proof.
  revert t p; induction cs as [|c cs IH]; intros t p; [discriminate|].
  destruct p as [|d p]; [discriminate|].
  destruct t as [a|es]; [reflexivity|]. cbn [Fs.is_prefix remove].
  destruct (String.eqb_spec c d) as [->|Hne].
  - rewrite String.eqb_refl. cbn [andb]. intros H1 H2.
    destruct cs as [|c' cs]; [discriminate|].
    destruct (assoc d es) as [m|] eqn:E; [|reflexivity].
    cbn [lookup]. rewrite assoc_set_same, E. now apply IH.
  - intros _ _. apply String.eqb_neq in Hne.
    destruct cs as [|c' cs].
    + cbn [lookup]. now rewrite assoc_remove_other.
    + destruct (assoc c es) as [m|] eqn:E; [|reflexivity].
      cbn [lookup]. now rewrite assoc_set_other.
Qed.

Lemma lookup_insert_other cs t p x :
  Fs.is_prefix cs p = false -> Fs.is_prefix p cs = false ->
  lookup (insert t cs x) p = lookup t p.
Proof.
  revert t p; induction cs as [|c cs IH]; intros t p; [discriminate|].
  destruct p as [|d p]; [discriminate|].
  destruct t as [a|es]; [reflexivity|]. cbn [Fs.is_prefix insert].
  destruct (String.eqb_spec c d) as [->|Hne].
  - rewrite String.eqb_refl. cbn [andb]. intros H1 H2.
    destruct cs as [|c' cs]; [discriminate|].
    destruct (assoc d es) as [m|] eqn:E; [|reflexivity].
    cbn [lookup]. rewrite assoc_set_same, E. now apply IH.
  - intros _ _. apply String.eqb_neq in Hne.
    destruct cs as [|c' cs].
    + cbn [lookup]. now rewrite assoc_set_other.
    + destruct (assoc c es) as [m|] eqn:E; [|reflexivity].
      cbn [lookup]. now rewrite assoc_set_other.
Qed.

Lemma lookup_insert_deep_other cs t t' p x :
  insert_deep t cs x = Some t' ->
  Fs.is_prefix cs p = false -> Fs.is_prefix p cs = false ->
  lookup t' p = lookup t p.
Proof.
  revert t t' p; induction cs as [|c cs IH]; intros t t' p; [discriminate|].
  destruct p as [|d p]; [discriminate|].
  destruct t as [a|es]; [discriminate|]. cbn [Fs.is_prefix].
  destruct cs as [|c' cs].
  - cbn [insert_deep]. intros [= <-].
    destruct (String.eqb_spec c d) as [->|Hne]; [now destruct p|]. intros _ _.
    apply String.eqb_neq in Hne. cbn [lookup]. now rewrite assoc_set_other.
  - rewrite insert_deep_cons.
    destruct (insert_deep _ (c' :: cs) x) as [m'|] eqn:Hm; [|discriminate].
    intros [= <-]. cbn [lookup].
    destruct (String.eqb_spec c d) as [->|Hne].
    + rewrite String.eqb_refl. cbn [andb]. intros H1 H2. rewrite assoc_set_same.
      rewrite (IH _ _ p Hm H1 H2).
      destruct (assoc d es) as [m|]; [reflexivity|].
      destruct p as [|e p]; [discriminate | reflexivity].
    + intros _ _. apply String.eqb_neq in Hne. now rewrite assoc_set_other.
Qed.

(** The place an entry was removed from can be linked again. *)
Lemma reachable_remove t cs n :
  cs <> [] -> lookup t cs = Some n -> reachable (remove t cs) cs = true.
Proof.
  revert t; induction cs as [|c cs IH]; intros t Hne; [contradiction|].
  destruct t as [a|es]; [discriminate|]. cbn [lookup].
  destruct (assoc c es) as [m|] eqn:E; [|discriminate]. intros Hl.
  destruct cs as [|c' cs]; [reflexivity|].
  cbn [remove]. rewrite E, reachable_cons, assoc_set_same.
  apply IH; [discriminate | exact Hl].
Qed.

End UnrelatedFacts.

(** ** Properties the calls of the logger keep *)

Section StableFacts.

Import H5 Utils.

Lemma stable_ret {B} (P : world -> Prop) (a : B) : stable P (ret a).
Proof. intros w H. exact H. Qed.

Lemma stable_bind {B C} (P : world -> Prop) (m : M world B) (k : B -> M world C) :
  stable P m -> (forall a, stable P (k a)) -> stable P (bind m k).
Proof.
  intros Hm Hk w H. unfold bind. specialize (Hm w H).
  destruct (m w) as [[a|e|] w1]; simpl in *; [now apply Hk | exact Hm | exact Hm].
Qed.

Lemma stable_try_except {B} (P : world -> Prop) (body : M world B) catches handler :
  stable P body -> (forall e, stable P (handler e)) ->
  stable P (try_except body catches handler).
Proof.
  intros Hb Hh w H. unfold try_except. specialize (Hb w H).
  destruct (body w) as [[a|e|] w1]; simpl in *; try exact Hb.
  destruct (catches e); [now apply Hh | exact Hb].
Qed.

Lemma stable_for_each {B} (P : world -> Prop) (l : list B) (body : B -> M world unit) :
  (forall x, stable P (body x)) -> stable P (for_each l body).
Proof.
  intros Hb. induction l as [|x l IH]; [apply stable_ret|].
  cbn [for_each]. apply stable_bind; [apply Hb | intros _; exact IH].
Qed.

Lemma stable_read_file {B} (P : world -> Prop) (file : string) (op : obj -> result B) :
  stable P (read_file file op).
Proof. intros w H. unfold read_file. now destruct (files w !! file). Qed.

Lemma stable_write_file (P : world -> Prop) (file : string) (op : obj -> result obj) :
  (forall w f f', files w !! file = Some f -> op f = Ok f' -> P w -> P (set_file file f' w)) ->
  stable P (write_file file op).
Proof.
  intros Hop w H. unfold write_file.
  destruct (files w !! file) as [f|] eqn:Hf; [|exact H].
  destruct (op f) as [f'| |] eqn:E; [|exact H|exact H]. now apply (Hop w f f').
Qed.

Lemma stable_logging_error (P : world -> Prop) (line : string) :
  (forall w w', files w' = files w -> P w -> P w') ->
  stable P (logging_error line).
Proof. intros HP w H. now apply (HP w). Qed.

(** A property of the files that the three writes of [log_value] keep
    is kept by [log_value] on a handle. *)
Lemma stable_log_value_in (P : world -> Prop) broadcast (file key : string) (v : ndarray) :
  (forall w w', files w' = files w -> P w -> P w') ->
  (forall w f f', files w !! file = Some f ->
     create_dataset f key v = Ok f' \/ grow_by_one f key = Ok f' \/
     write_last broadcast f key v = Ok f' ->
     P w -> P (set_file file f' w)) ->
  stable P (log_value_in broadcast file key v).
Proof.
  intros HP Hop. unfold log_value_in.
  apply stable_bind; [apply stable_read_file|]. intros present.
  assert (stable P (_init_dataset_once file key v)) as Hinit.
  { apply stable_write_file. intros w f f' Hf E. apply (Hop w f f' Hf). now left. }
  assert (stable P (_append_to_dataset_once broadcast file key v)) as Happ.
  { unfold _append_to_dataset_once. apply stable_bind.
    - apply stable_write_file. intros w f f' Hf E. apply (Hop w f f' Hf). right. now left.
    - intros _. apply stable_write_file. intros w f f' Hf E. apply (Hop w f f' Hf).
      right. now right. }
  destruct (negb present).
  - unfold _init_dataset. apply stable_try_except; [exact Hinit|]. intros e.
    apply stable_bind; [now apply stable_logging_error|]. intros _.
    apply stable_bind; [apply stable_ret|]. intros _. exact Hinit.
  - unfold _append_to_dataset. apply stable_try_except; [exact Happ|]. intros e.
    apply stable_bind; [now apply stable_logging_error|]. intros _.
    apply stable_bind; [apply stable_ret|]. intros _. exact Happ.
Qed.

(** What each of the three writes leaves as it was. *)
Lemma log_value_writes_other broadcast (f f' : obj) (key : string) (v : ndarray)
    (p : list string) :
  create_dataset f key v = Ok f' \/ grow_by_one f key = Ok f' \/
  write_last broadcast f key v = Ok f' ->
  Fs.is_prefix (components key) p = false -> Fs.is_prefix p (components key) = false ->
  lookup f' p = lookup f p.
Proof.
  intros [H | [H | H]] H1 H2.
  - unfold create_dataset, link_dataset in H.
    destruct (String.eqb key ""); [discriminate|].
    destruct (lookup f (components key)); [discriminate|].
    destruct (insert_deep f (components key) _) as [t|] eqn:E; [|discriminate].
    injection H as <-. now apply (lookup_insert_deep_other _ _ _ _ _ E).
  - unfold grow_by_one in H.
    destruct (getitem f key) as [[d|es]| |]; try discriminate.
    destruct (shape (ds_array d)) as [|rows rest]; [discriminate|].
    destruct (resize d (rows + 1)) as [d'| |]; try discriminate.
    injection H as <-. now apply lookup_insert_other.
  - unfold write_last in H.
    destruct (getitem f key) as [[d|es]| |]; try discriminate.
    destruct (shape (ds_array d)) as [|[|n] rest]; try discriminate.
    destruct (if bool_decide (shape v = rest) then Ok (data v) else broadcast rest v)
      as [elems| |]; try discriminate.
    injection H as <-. now apply lookup_insert_other.
Qed.

End StableFacts.

Section LogValueMoreFacts.

Import H5 Utils.

Variable broadcast : list nat -> ndarray -> result (list Z).
Variable self : h5_logger.

Lemma content_set_file (f : obj) (w : world) :
  content self (set_file (filename self) f w) = f.
Proof. unfold content, set_file. simpl. now rewrite lookup_insert_eq. Qed.

Lemma content_opened_for_append (w : world) :
  content self (opened_for_append (filename self) w) = content self w.
Proof. apply content_of, opened_for_append_content. Qed.

Lemma opened_for_append_present (w : world) (f : obj) :
  files w !! filename self = Some f ->
  opened_for_append (filename self) w = set_opens (opens w ++ ["a"]) w.
Proof. intros Hf. unfold opened_for_append, set_opens. now rewrite Hf. Qed.

Lemma set_opens_same (w : world) : set_opens (opens w) w = w.
Proof. now destruct w. Qed.

(** *** The record of opened files plays no part on a handle *)

Lemma opens_blind_ret {B} (a : B) : opens_blind (ret a : M world B).
Proof. intros o w. reflexivity. Qed.

Lemma opens_blind_bind {B C} (m : M world B) (k : B -> M world C) :
  opens_blind m -> (forall a, opens_blind (k a)) -> opens_blind (bind m k).
Proof.
  intros Hm Hk o w. unfold bind. rewrite (Hm o w).
  destruct (m w) as [[a|e|] w1]; simpl; [apply Hk | reflexivity | reflexivity].
Qed.

Lemma opens_blind_try_except {B} (body : M world B) catches handler :
  opens_blind body -> (forall e, opens_blind (handler e)) ->
  opens_blind (try_except body catches handler).
Proof.
  intros Hb Hh o w. unfold try_except. rewrite (Hb o w).
  destruct (body w) as [[a|e|] w1]; simpl; try reflexivity.
  destruct (catches e); [apply Hh | reflexivity].
Qed.

Lemma opens_blind_for_each {B} (l : list B) (body : B -> M world unit) :
  (forall x, opens_blind (body x)) -> opens_blind (for_each l body).
Proof.
  intros Hb. induction l as [|x l IH]; [apply opens_blind_ret|].
  cbn [for_each]. apply opens_blind_bind; [apply Hb | intros _; exact IH].
Qed.

Lemma opens_blind_read_file {B} (file : string) (op : obj -> result B) :
  opens_blind (read_file file op).
Proof. intros o w. unfold read_file. simpl. now destruct (files w !! file). Qed.

Lemma opens_blind_write_file (file : string) (op : obj -> result obj) :
  opens_blind (write_file file op).
Proof.
  intros o w. unfold write_file. simpl. destruct (files w !! file) as [f|]; [|reflexivity].
  now destruct (op f).
Qed.

Lemma opens_blind_logging_error (line : string) : opens_blind (logging_error line).
Proof. intros o w. reflexivity. Qed.

Lemma opens_blind_log_value_in (file key : string) (v : ndarray) :
  opens_blind (log_value_in broadcast file key v).
Proof.
  unfold log_value_in. apply opens_blind_bind; [apply opens_blind_read_file|].
  intros present. destruct (negb present).
  - unfold _init_dataset, _init_dataset_once.
    apply opens_blind_try_except; [apply opens_blind_write_file|]. intros e.
    apply opens_blind_bind; [apply opens_blind_logging_error|]. intros _.
    apply opens_blind_bind; [apply opens_blind_ret|]. intros _.
    apply opens_blind_write_file.
  - assert (opens_blind (_append_to_dataset_once broadcast file key v)) as Happ.
    { unfold _append_to_dataset_once.
      apply opens_blind_bind; [apply opens_blind_write_file|]. intros _.
      apply opens_blind_write_file. }
    unfold _append_to_dataset.
    apply opens_blind_try_except; [exact Happ|]. intros e.
    apply opens_blind_bind; [apply opens_blind_logging_error|]. intros _.
    apply opens_blind_bind; [apply opens_blind_ret|]. intros _. exact Happ.
Qed.

Lemma opens_blind_opens {B} (m : M world B) (w : world) :
  opens_blind m -> opens (snd (m w)) = opens w.
Proof.
  intros Hm. rewrite <- (set_opens_same w) at 1. now rewrite (Hm (opens w) w).
Qed.

(** *** The log file stays in place *)

Lemma log_value_in_present (file key : string) (v : ndarray) (path : string) :
  stable (fun w => is_Some (files w !! path)) (log_value_in broadcast file key v).
Proof.
  apply stable_log_value_in.
  - intros w w' E. now rewrite E.
  - intros w f f' Hf _ H. unfold set_file. simpl.
    destruct (decide (file = path)) as [->|Hne].
    + rewrite lookup_insert_eq. eauto.
    + now rewrite lookup_insert_ne.
Qed.

Lemma for_each_cons_run {S B} (x : B) (l : list B) (body : B -> M S unit) (s : S) :
  for_each (x :: l) body s =
  match body x s with
  | (Ok _, s1) => for_each l body s1
  | (Raise e, s1) => (Raise e, s1)
  | (OutOfFuel, s1) => (OutOfFuel, s1)
  end.
Proof.
  cbn [for_each]. unfold bind. now destruct (body x s) as [[[]|e|] s1].
Qed.

Lemma log_value_present (key : string) (v : ndarray) (w : world) (o : list string) :
  is_Some (files w !! filename self) ->
  log_value broadcast self key v None (set_opens o w)
  = (fst (log_value_in broadcast (filename self) key v w),
     set_opens (o ++ ["a"]) (snd (log_value_in broadcast (filename self) key v w))).
Proof.
  intros [f Hf]. unfold log_value. rewrite with_file_append.
  rewrite (opened_for_append_present (set_opens o w) f) by exact Hf.
  change (set_opens (opens (set_opens o w) ++ ["a"]) (set_opens o w))
    with (set_opens (o ++ ["a"]) w).
  apply opens_blind_log_value_in.
Qed.

(** On a file that is there, the items logged through one handle and
    the items logged one call at a time fare alike. *)
Lemma log_items_alike (d : list (string * ndarray)) (w : world) (o : list string) :
  is_Some (files w !! filename self) ->
  let one_handle :=
    for_each d (fun item => log_value_in broadcast (filename self) (fst item) (snd item)) w in
  let one_by_one :=
    for_each d (fun item => log_value broadcast self (fst item) (snd item) None)
      (set_opens o w) in
  fst one_handle = fst one_by_one /\
  files (snd one_handle) = files (snd one_by_one) /\
  logged (snd one_handle) = logged (snd one_by_one).
Proof.
  revert w o; induction d as [|[k v] d IH]; intros w o Hf; [now cbn|].
  cbv zeta. rewrite !for_each_cons_run. cbn [fst snd].
  rewrite (log_value_present k v w o Hf).
  pose proof (log_value_in_present (filename self) k v (filename self) w Hf) as Hf'.
  destruct (log_value_in broadcast (filename self) k v w) as [[[]|e|] w1];
    cbn [fst snd] in *; [|now cbn|now cbn].
  apply (IH w1 (o ++ ["a"]) Hf').
Qed.

End LogValueMoreFacts.

(** X16. [log_value(data_key, data_value)] touches nothing but the key
    it is given: whether it returns or raises, every key of the log
    file that is neither on the way to [data_key] nor below it names
    what it named before, and every other file is as it was. *)
Theorem log_value_leaves_other_keys (broadcast : list nat -> H5.ndarray -> result (list Z))
    (self : Utils.h5_logger) (data_key : string) (data_value : H5.ndarray)
    (w : Utils.world) :
  let w' := snd (Utils.log_value broadcast self data_key data_value None w) in
  (forall p,
     Fs.is_prefix (H5.components data_key) p = false ->
     Fs.is_prefix p (H5.components data_key) = false ->
     lookup (Utils.content self w') p = lookup (Utils.content self w) p) /\
  (forall path, path <> Utils.filename self ->
     Utils.files w' !! path = Utils.files w !! path).
Proof.
  unfold Utils.log_value. rewrite with_file_append. split.
  - intros p H1 H2.
    rewrite <- (content_opened_for_append self w).
    apply (stable_log_value_in
             (fun w1 => lookup (Utils.content self w1) p
                        = lookup (Utils.content self
                                    (Utils.opened_for_append (Utils.filename self) w)) p));
      [| |reflexivity].
    + intros w1 w2 E. unfold Utils.content. now rewrite E.
    + intros w1 f f' Hf Hop Hw1. rewrite content_set_file, <- Hw1.
      rewrite (content_of self w1 f Hf).
      now apply (log_value_writes_other broadcast f f' data_key data_value).
  - intros path Hne.
    transitivity (Utils.files (Utils.opened_for_append (Utils.filename self) w) !! path).
    + apply (stable_log_value_in
               (fun w1 => Utils.files w1 !! path
                          = Utils.files (Utils.opened_for_append (Utils.filename self) w)
                              !! path)); [| |reflexivity].
      * intros w1 w2 E. now rewrite E.
      * intros w1 f f' Hf Hop Hw1. unfold Utils.set_file. simpl.
        rewrite lookup_insert_ne by congruence. exact Hw1.
    + unfold Utils.opened_for_append. simpl.
      destruct (Utils.files w !! Utils.filename self); [reflexivity|].
      now rewrite lookup_insert_ne by congruence.
Qed.

(** X17. [log_dict] on a dictionary that is not empty does what
    [log_value] does for its items, one call after the other: the same
    outcome, the same files and the same logged lines, and where the
    calls one by one open the file once per item, [log_dict] opens it
    once. *)
Theorem log_dict_as_log_values (broadcast : list nat -> H5.ndarray -> result (list Z))
    (self : Utils.h5_logger) (data_dict : list (string * H5.ndarray)) (w : Utils.world) :
  data_dict <> [] ->
  let at_once := Utils.log_dict broadcast self data_dict w in
  let one_by_one :=
    for_each data_dict
      (fun item => Utils.log_value broadcast self (fst item) (snd item) None) w in
  fst at_once = fst one_by_one /\
  Utils.files (snd at_once) = Utils.files (snd one_by_one) /\
  Utils.logged (snd at_once) = Utils.logged (snd one_by_one) /\
  Utils.opens (snd at_once) = Utils.opens w ++ ["a"].
Proof.
  intros Hne. unfold Utils.log_dict. rewrite with_file_append. cbv zeta.
  split; [|split; [|split]].
  4: { rewrite opens_blind_opens; [reflexivity|].
       apply opens_blind_for_each. intros item. apply opens_blind_log_value_in. }
  all: destruct data_dict as [|[k v] d]; [contradiction|];
    rewrite !for_each_cons_run; cbn [fst snd Utils.log_value];
    rewrite with_file_append;
    pose proof (log_value_in_present broadcast (Utils.filename self) k v
                  (Utils.filename self) _
                  (ex_intro _ _ (opened_for_append_content self w))) as Hf;
    destruct (Utils.log_value_in broadcast (Utils.filename self) k v
                (Utils.opened_for_append (Utils.filename self) w)) as [[[]|e|] w1];
    cbn [fst snd] in *; try reflexivity;
    destruct (log_items_alike broadcast self d w1 (Utils.opens w1) Hf) as (H1 & H2 & H3);
    rewrite set_opens_same in H1, H2, H3; assumption.
Qed.

Lemma log_dict_as_log_values_witness :
  let d := [("a", Scenario.one_two); ("b", Scenario.three_four)] in
  let at_once := Utils.log_dict Scenario.no_broadcast Scenario.logger d Scenario.with_group in
  let one_by_one :=
    for_each d
      (fun item => Utils.log_value Scenario.no_broadcast Scenario.logger
                     (fst item) (snd item) None) Scenario.with_group in
  fst at_once = fst one_by_one /\
  Utils.files (snd at_once) = Utils.files (snd one_by_one) /\
  Utils.logged (snd at_once) = Utils.logged (snd one_by_one) /\
  Utils.opens (snd at_once) = Utils.opens Scenario.with_group ++ ["a"].
Proof.
  apply (log_dict_as_log_values Scenario.no_broadcast Scenario.logger
           [("a", Scenario.one_two); ("b", Scenario.three_four)]
           Scenario.with_group).
  discriminate.
Defined.

(** ** Reading and removing keys *)

Section ReadFacts.

Import H5 Utils.

Variable self : h5_logger.

(** The loop of [get_multiple] on a file in which every key it meets
    holds a dataset. *)
Lemma get_multiple_loop (file : string) (f : obj) (value : string -> ndarray)
    (given_keys : list string) (acc : gmap string ndarray) (w : world) :
  files w !! file = Some f ->
  (forall k, k ∈ given_keys -> read_whole f k = Ok (value k)) ->
  exists m,
    fold_each given_keys acc (fun k acc =>
      do v <- read_file file (fun o => read_whole o k);
      ret (<[k := v]> acc)) w = (Ok m, w) /\
    forall k, m !! k = if bool_decide (k ∈ given_keys) then Some (value k) else acc !! k.
Proof.
  intros Hf. revert acc; induction given_keys as [|x l IH]; intros acc Hall.
  - exists acc. split; [reflexivity|]. intros k.
    rewrite bool_decide_eq_false_2; [reflexivity | apply not_elem_of_nil].
  - cbn [fold_each]. unfold bind at 1 2, read_file at 1. rewrite Hf.
    rewrite (Hall x) by (apply elem_of_cons; now left). cbn [ret].
    destruct (IH (<[x := value x]> acc)) as (m & Hrun & Hm).
    { intros k Hk. apply Hall. apply elem_of_cons. now right. }
    exists m. split; [exact Hrun|]. intros k. rewrite Hm.
    destruct (decide (k ∈ l)) as [Hin|Hnin].
    + rewrite !bool_decide_eq_true_2; [reflexivity | apply elem_of_cons; now right | exact Hin].
    + rewrite (bool_decide_eq_false_2 _ Hnin).
      destruct (decide (k = x)) as [->|Hne].
      * rewrite lookup_insert_eq, bool_decide_eq_true_2; [reflexivity | apply elem_of_cons; now left].
      * rewrite lookup_insert_ne by congruence.
        rewrite bool_decide_eq_false_2; [reflexivity|].
        intros Hin. apply elem_of_cons in Hin as [?|?]; contradiction.
Qed.

(** The loop stops at the first key that cannot be read. *)
Lemma get_multiple_loop_raises (file : string) (f : obj) (pre post : list string)
    (k : string) (e : exn) (acc : gmap string ndarray) (w : world) :
  files w !! file = Some f ->
  (forall k', k' ∈ pre -> exists a, read_whole f k' = Ok a) ->
  read_whole f k = Raise e ->
  fold_each (pre ++ k :: post) acc (fun k acc =>
    do v <- read_file file (fun o => read_whole o k);
    ret (<[k := v]> acc)) w = (Raise e, w).
Proof.
  intros Hf Hpre Hk. revert acc; induction pre as [|x l IH]; intros acc.
  - cbn [app fold_each]. unfold bind at 1 2, read_file at 1. now rewrite Hf, Hk.
  - cbn [app fold_each]. unfold bind at 1 2, read_file at 1. rewrite Hf.
    destruct (Hpre x) as [a Ha]; [apply elem_of_cons; now left|]. rewrite Ha. cbn [ret].
    apply IH. intros k' Hk'. apply Hpre. apply elem_of_cons. now right.
Qed.

End ReadFacts.

(** X18. [get_multiple(given_keys)] on a log file in which every given
    key holds a dataset returns the dictionary that has exactly the
    given keys, each with the whole array stored under it, and leaves
    the files as they were; and when a key cannot be read, the call
    raises what reading the first such key raises. *)
Theorem get_multiple_reads_all (self : Utils.h5_logger) (given_keys : list string)
    (f : H5.obj) (w : Utils.world) :
  Utils.files w !! Utils.filename self = Some f ->
  (forall value : string -> H5.ndarray,
     (forall k, k ∈ given_keys -> Utils.read_whole f k = Ok (value k)) ->
     exists m w',
       Utils.get_multiple self given_keys w = (Ok m, w') /\
       Utils.files w' = Utils.files w /\
       forall k, m !! k = if bool_decide (k ∈ given_keys) then Some (value k) else None) /\
  (forall pre k post e,
     given_keys = pre ++ k :: post ->
     (forall k', k' ∈ pre -> exists a, Utils.read_whole f k' = Ok a) ->
     Utils.read_whole f k = Raise e ->
     fst (Utils.get_multiple self given_keys w) = Raise e).
Proof.
  intros Hf. unfold Utils.get_multiple, Utils.with_file. rewrite Hf. cbn [String.eqb Ascii.eqb Bool.eqb].
  set (w1 := {| Utils.files := Utils.files w; Utils.opens := Utils.opens w ++ ["r"];
                Utils.logged := Utils.logged w |}).
  split.
  - intros value Hall.
    destruct (get_multiple_loop (Utils.filename self) f value given_keys ∅ w1 Hf Hall)
      as (m & Hrun & Hm).
    exists m, w1. split; [exact Hrun|]. split; [reflexivity|].
    intros k. rewrite Hm. now rewrite lookup_empty.
  - intros pre k post e -> Hpre Hk.
    now rewrite (get_multiple_loop_raises (Utils.filename self) f pre post k e ∅ w1 Hf Hpre Hk).
Qed.

Lemma get_multiple_reads_all_witness :
  (exists m w',
     Utils.get_multiple Scenario.logger ["k"] Scenario.with_attribute = (Ok m, w') /\
     Utils.files w' = Utils.files Scenario.with_attribute /\
     forall k, m !! k = if bool_decide (k ∈ ["k"]) then Some Scenario.one_two else None) /\
  fst (Utils.get_multiple Scenario.logger ["k"; "missing"; "k"] Scenario.with_attribute)
    = Raise KeyError.
Proof.
  split.
  - destruct (get_multiple_reads_all Scenario.logger ["k"] _ Scenario.with_attribute eq_refl)
      as [H _].
    apply (H (fun _ => Scenario.one_two)).
    intros k Hk. apply list_elem_of_singleton in Hk as ->. reflexivity.
  - destruct (get_multiple_reads_all Scenario.logger ["k"; "missing"; "k"] _
                Scenario.with_attribute eq_refl) as [_ H].
    apply (H ["k"] "missing" ["k"] KeyError); [reflexivity| |reflexivity].
    intros k Hk. apply list_elem_of_singleton in Hk as ->. eexists. reflexivity.
Defined.

Section KeyFacts.

Import H5 Utils.

Lemma components_not_empty (key : string) :
  components key <> [] -> String.eqb key "" = false.
Proof.
  intros H. destruct (String.eqb_spec key "") as [->|]; [|reflexivity].
  now contradiction H.
Qed.

Lemma components_name (k : string) : name_ok k = true -> components k = [k].
Proof.
  intros Hk. destruct (name_ok_inv k Hk) as (Hsep & He & Hd & _).
  unfold components. rewrite (split_nosep _ _ Hsep). cbn [List.filter].
  unfold ordinary. now rewrite He, Hd.
Qed.

Lemma components_join (group_name k : string) :
  name_ok k = true ->
  components (group_name +:+ "/" +:+ k) = components group_name ++ [k].
Proof.
  intros Hk. unfold components.
  change (group_name +:+ "/" +:+ k) with (group_name +:+ String "/" k).
  rewrite split_app_cons, List.filter_app.
  fold (components k). now rewrite (components_name k Hk).
Qed.

Lemma assoc_not_in {B} (k : string) (l : list (string * B)) :
  ~ In k (map fst l) -> assoc k l = None.
Proof.
  induction l as [|[k' v] l IH]; simpl; [reflexivity|]. intros H.
  destruct (String.eqb_spec k k') as [->|Hne]; [tauto|]. apply IH. tauto.
Qed.

End KeyFacts.

(** X19. [rm_key(key)] raises [FileNotFoundError] when the log file is
    not there and [KeyError] when the key names nothing, the files
    staying as they were; and when the key names a dataset or a group
    of a well-formed file, the call returns, the key is no longer in
    use, and every key that is neither on the way to it nor below it
    names what it named before. *)
Theorem rm_key_removes (self : Utils.h5_logger) (key : string) (w : Utils.world) :
  (Utils.files w !! Utils.filename self = None ->
   fst (Utils.rm_key self key w) = Raise FileNotFoundError /\
   Utils.files (snd (Utils.rm_key self key w)) = Utils.files w) /\
  (forall f,
     Utils.files w !! Utils.filename self = Some f ->
     H5.components key <> [] ->
     lookup f (H5.components key) = None ->
     fst (Utils.rm_key self key w) = Raise KeyError /\
     Utils.files (snd (Utils.rm_key self key w)) = Utils.files w) /\
  (forall f o,
     Utils.files w !! Utils.filename self = Some f ->
     wf f = true ->
     H5.components key <> [] ->
     lookup f (H5.components key) = Some o ->
     exists w',
       Utils.rm_key self key w = (Ok tt, w') /\
       Utils.in_use self w' key = false /\
       forall p,
         Fs.is_prefix (H5.components key) p = false ->
         Fs.is_prefix p (H5.components key) = false ->
         lookup (Utils.content self w') p = lookup f p).
Proof.
  unfold Utils.rm_key, Utils.with_file. split; [|split].
  - intros Hf. now rewrite Hf.
  - intros f Hf Hne Hl. rewrite Hf. cbn [String.eqb Ascii.eqb Bool.eqb].
    unfold Utils.write_file. cbn [Utils.files]. rewrite Hf.
    unfold H5.delitem. rewrite (components_not_empty key Hne).
    destruct (H5.components key) as [|c cs]; [contradiction|]. now rewrite Hl.
  - intros f o Hf Hwf Hne Hl. rewrite Hf. cbn [String.eqb Ascii.eqb Bool.eqb].
    unfold Utils.write_file. cbn [Utils.files]. rewrite Hf.
    unfold H5.delitem. rewrite (components_not_empty key Hne).
    destruct (H5.components key) as [|c cs] eqn:E; [contradiction|]. rewrite Hl.
    eexists. split; [reflexivity|]. split.
    + unfold Utils.in_use, Utils.set_file. cbn [Utils.files].
      rewrite lookup_insert_eq. unfold H5.contains.
      rewrite (components_not_empty key) by now rewrite E.
      now rewrite E, (lookup_remove_same f (c :: cs) o).
    + intros p H1 H2. unfold Utils.content, Utils.set_file. cbn [Utils.files].
      rewrite lookup_insert_eq. now apply lookup_remove_other.
Qed.

Lemma rm_key_removes_witness :
  (fst (Utils.rm_key Scenario.logger "g/b" Scenario.with_group) = Raise KeyError /\
   Utils.files (snd (Utils.rm_key Scenario.logger "g/b" Scenario.with_group))
     = Utils.files Scenario.with_group) /\
  (exists w',
     Utils.rm_key Scenario.logger "g/a" Scenario.with_group = (Ok tt, w') /\
     Utils.in_use Scenario.logger w' "g/a" = false /\
     forall p,
       Fs.is_prefix (H5.components "g/a") p = false ->
       Fs.is_prefix p (H5.components "g/a") = false ->
       lookup (Utils.content Scenario.logger w') p
       = lookup (Utils.content Scenario.logger Scenario.with_group) p).
Proof.
  split.
  - destruct (rm_key_removes Scenario.logger "g/b" Scenario.with_group) as (_ & H & _).
    apply (H (Utils.content Scenario.logger Scenario.with_group) eq_refl);
      [discriminate | reflexivity].
  - destruct (rm_key_removes Scenario.logger "g/a" Scenario.with_group) as (_ & _ & H).
    eapply (H (Utils.content Scenario.logger Scenario.with_group) _ eq_refl);
      [reflexivity | discriminate | reflexivity].
Defined.

(** ** [get_group] *)

Section GroupFacts.

Import H5 Utils.

Variable self : h5_logger.
Variable f : obj.
Hypothesis f_wf : wf f = true.

(** The loop of [get_group] over the members that are left, [rec]
    standing for the call of the function on a group inside. *)
Lemma get_group_loop (rec : string -> M world (list (string * tree ndarray)))
    (group_name : string) (es : list (string * obj)) (w0 : world) :
  String.eqb group_name "" = false ->
  lookup f (components group_name) = Some (Node es) ->
  (forall k sub w, In (k, Node sub) es ->
     files w !! filename self = Some f ->
     exists w', rec (group_name +:+ "/" +:+ k) w
                  = (Ok (map (fun e => (fst e, arrays (snd e))) sub), w') /\
                files w' = files w /\ logged w' = logged w) ->
  forall seen todo w,
    es = seen ++ todo ->
    files w !! filename self = Some f ->
    exists w',
      fold_each (map fst todo) (map (fun e => (fst e, arrays (snd e))) seen)
        (fun key results =>
           do m <- read_file (filename self) (fun o => member o group_name key);
           match m with
           | Leaf d => ret (assoc_set key (Leaf (ds_array d)) results)
           | Node _ =>
               do below <- rec (group_name +:+ "/" +:+ key);
               ret (assoc_set key (Node below) results)
           end) w
      = (Ok (map (fun e => (fst e, arrays (snd e))) es), w') /\
      files w' = files w /\ logged w' = logged w.
Proof.
  intros Hname Hl Hrec.
  pose proof (wf_lookup _ _ _ f_wf Hl) as Hwf.
  destruct (wf_node es Hwf) as [Hnd Hall].
  intros seen todo. revert seen. induction todo as [|[k m] todo IH]; intros seen w Hes Hf.
  - exists w. rewrite app_nil_r in Hes. subst seen. now split.
  - assert (In (k, m) es) as Hin by (rewrite Hes; apply in_elt).
    destruct (Hall k m Hin) as [Hk _].
    destruct (name_ok_inv k Hk) as (_ & Hke & _ & _).
    assert (assoc k (map (fun e => (fst e, arrays (snd e))) seen) = None) as Hfresh.
    { apply assoc_not_in. rewrite map_map. cbn [fst]. intros Hs.
      rewrite Hes, map_app in Hnd. apply NoDup_app in Hnd as (_ & Hd & _).
      apply (Hd k); [now apply list_elem_of_In | apply list_elem_of_In; now left]. }
    assert (member f group_name k = Ok m) as Hm.
    { unfold member, getitem. rewrite Hname, Hl, Hke, (components_name k Hk).
      cbn [lookup]. now rewrite (assoc_NoDup es k m Hnd Hin). }
    cbn [map fst fold_each]. unfold bind at 1 2, read_file at 1. rewrite Hf.
    cbv beta. rewrite Hm.
    destruct m as [d|sub].
    + cbn [ret]. rewrite (assoc_set_fresh _ _ _ Hfresh).
      destruct (IH (seen ++ [(k, Leaf d)]) w) as (w' & Hrun & Hw');
        [now rewrite <- app_assoc | exact Hf |].
      exists w'. split; [|exact Hw'].
      rewrite map_app in Hrun. cbn [map fst snd arrays] in Hrun. exact Hrun.
    + destruct (Hrec k sub w Hin Hf) as (w1 & Hsub & Hf1 & Hlog1).
      unfold bind at 1. rewrite Hsub. cbn [ret]. rewrite (assoc_set_fresh _ _ _ Hfresh).
      destruct (IH (seen ++ [(k, Node sub)]) w1) as (w' & Hrun & Hf' & Hlog');
        [now rewrite <- app_assoc | now rewrite Hf1 |].
      exists w'. split; [|split; congruence].
      rewrite map_app in Hrun. cbn [map fst snd arrays] in Hrun. exact Hrun.
Qed.

Lemma get_group_fuel_ok (fuel : nat) (group_name : string) (es : list (string * obj))
    (w : world) :
  files w !! filename self = Some f ->
  String.eqb group_name "" = false ->
  lookup f (components group_name) = Some (Node es) ->
  height (Node es) <= fuel ->
  exists w', get_group_fuel self fuel group_name w
               = (Ok (map (fun e => (fst e, arrays (snd e))) es), w') /\
             files w' = files w /\ logged w' = logged w.
Proof.
  revert group_name es w; induction fuel as [|fuel IH]; intros group_name es w Hf Hname Hl Hh.
  - cbn [height] in Hh. lia.
  - cbn [get_group_fuel]. unfold with_file. rewrite Hf. cbn [String.eqb Ascii.eqb Bool.eqb].
    unfold bind at 1, read_file at 1. cbn [files]. rewrite Hf.
    unfold group_keys, getitem. rewrite Hname, Hl. cbn [keys].
    pose proof (wf_lookup _ _ _ f_wf Hl) as Hwf.
    destruct (wf_node es Hwf) as [_ Hall].
    destruct (get_group_loop (get_group_fuel self fuel) group_name es w Hname Hl)
      with (seen := @nil (string * obj)) (todo := es)
           (w := {| files := files w; opens := opens w ++ ["r"]; logged := logged w |})
      as (w' & Hrun & Hw'); [|reflexivity|exact Hf|].
    + intros k sub w1 Hin Hf1. destruct (Hall k _ Hin) as [Hk _].
      apply IH; [exact Hf1 | | |].
      * apply String.eqb_neq. intros E. apply (f_equal String.length) in E.
        rewrite !str_length_app in E. simpl in E. lia.
      * rewrite (components_join _ _ Hk), lookup_snoc, Hl.
        now apply (assoc_NoDup es k), Hin; destruct (wf_node es Hwf).
      * pose proof (height_child es k _ Hin). lia.
    + exists w'. split; [exact Hrun | exact Hw'].
Qed.

End GroupFacts.

(** X20. [get_group(group_name)] raises [FileNotFoundError] when the
    log file is not there, [KeyError] when the name is not in the
    file and [AttributeError] when it names a dataset; and for a group
    of a well-formed file it returns the group as nested dictionaries,
    a dataset as its whole array and a group inside as the dictionary
    of its own members, down to any depth, the files staying as they
    were. *)
Theorem get_group_reads_tree (self : Utils.h5_logger) (group_name : string)
    (w : Utils.world) :
  (Utils.files w !! Utils.filename self = None ->
   fst (Utils.get_group self group_name w) = Raise FileNotFoundError) /\
  (forall f,
     Utils.files w !! Utils.filename self = Some f ->
     String.eqb group_name "" = false ->
     (lookup f (H5.components group_name) = None ->
      fst (Utils.get_group self group_name w) = Raise KeyError) /\
     (forall d, lookup f (H5.components group_name) = Some (Leaf d) ->
      fst (Utils.get_group self group_name w) = Raise AttributeError) /\
     (forall members,
        wf f = true ->
        lookup f (H5.components group_name) = Some (Node members) ->
        exists w',
          Utils.get_group self group_name w
            = (Ok (map (fun e => (fst e, H5.arrays (snd e))) members), w') /\
          Utils.files w' = Utils.files w /\
          Utils.logged w' = Utils.logged w)).
Proof.
  unfold Utils.get_group, bind, get. split.
  - intros Hf. cbn [Utils.get_group_fuel]. unfold Utils.with_file. now rewrite Hf.
  - intros f Hf Hname. split; [|split].
    + intros Hl. cbn [Utils.get_group_fuel]. unfold Utils.with_file. rewrite Hf.
      cbn [String.eqb Ascii.eqb Bool.eqb]. unfold bind, Utils.read_file. cbn [Utils.files].
      rewrite Hf. unfold Utils.group_keys, H5.getitem. now rewrite Hname, Hl.
    + intros d Hl. cbn [Utils.get_group_fuel]. unfold Utils.with_file. rewrite Hf.
      cbn [String.eqb Ascii.eqb Bool.eqb]. unfold bind, Utils.read_file. cbn [Utils.files].
      rewrite Hf. unfold Utils.group_keys, H5.getitem. now rewrite Hname, Hl.
    + intros members Hwf Hl.
      apply (get_group_fuel_ok self f Hwf); [exact Hf | exact Hname | exact Hl |].
      rewrite (content_of self w f Hf).
      pose proof (lookup_height _ _ _ Hl). lia.
Qed.

Lemma get_group_reads_tree_witness :
  fst (Utils.get_group Scenario.logger "h" Scenario.with_group) = Raise KeyError /\
  fst (Utils.get_group Scenario.logger "g/a" Scenario.with_group) = Raise AttributeError /\
  exists w',
    Utils.get_group Scenario.logger "g" Scenario.with_group
      = (Ok [("a", Leaf {| H5.shape := [1; 2]; H5.data := [1; 2]%Z |})], w') /\
    Utils.files w' = Utils.files Scenario.with_group /\
    Utils.logged w' = Utils.logged Scenario.with_group.
Proof.
  split; [|split].
  - destruct (get_group_reads_tree Scenario.logger "h" Scenario.with_group) as [_ H].
    destruct (H (Utils.content Scenario.logger Scenario.with_group) eq_refl eq_refl)
      as (H1 & _ & _).
    exact (H1 eq_refl).
  - destruct (get_group_reads_tree Scenario.logger "g/a" Scenario.with_group) as [_ H].
    destruct (H (Utils.content Scenario.logger Scenario.with_group) eq_refl eq_refl)
      as (_ & H2 & _).
    exact (H2 _ eq_refl).
  - destruct (get_group_reads_tree Scenario.logger "g" Scenario.with_group) as [_ H].
    destruct (H (Utils.content Scenario.logger Scenario.with_group) eq_refl eq_refl)
      as (_ & _ & H3).
    exact (H3 _ eq_refl eq_refl).
Defined.

(** ** The functions behind [check_if_in_h5] *)

(** X21. In the module as it is written, [check_if_in_h5], [check_key]
    and [log_attribute] stop at the unbound name [os] for every
    argument and every log file: [NameError] is raised before a file
    is opened, and [log_attribute] stores nothing. *)
Theorem log_attribute_NameError (self : Utils.h5_logger) (path key : string)
    (value : H5.ndarray) (replace : bool) (w : Utils.world) :
  Utils.check_if_in_h5 Utils.module_globals path key w = (Raise (NameError "os"), w) /\
  Utils.check_key Utils.module_globals self key w = (Raise (NameError "os"), w) /\
  Utils.log_attribute Utils.module_globals self key value replace w
    = (Raise (NameError "os"), w).
Proof.
  split; [apply check_if_in_h5_NameError|]. split.
  - apply check_if_in_h5_NameError.
  - unfold Utils.log_attribute, bind. now rewrite check_if_in_h5_NameError.
Qed.

Section AttributeFacts.

Import H5 Utils.

Variable g : list string.
Variable self : h5_logger.
Hypothesis os_bound : "os" ∈ g.

(** A value linked at a key that is free and can be reached. *)
Lemma setitem_free (f : obj) (key : string) (value : ndarray) :
  String.eqb key "" = false ->
  lookup f (components key) = None ->
  reachable f (components key) = true ->
  exists f', setitem f key value = Ok f' /\ read_whole f' key = Ok value /\
    forall p, Fs.is_prefix (components key) p = false ->
              Fs.is_prefix p (components key) = false ->
              lookup f' p = lookup f p.
Proof.
  intros Hk Hl Hr. unfold setitem, link_dataset. rewrite Hk, Hl.
  destruct (insert_deep_reachable f (components key)
              (Leaf {| ds_array := value; ds_maxrows := None |}) Hr) as (f' & Hins & Hl').
  rewrite Hins. exists f'. split; [reflexivity|]. split.
  - unfold read_whole, getitem. now rewrite Hk, Hl'.
  - intros p H1 H2. now apply (lookup_insert_deep_other _ _ _ _ _ Hins).
Qed.

Lemma get_multiple_one (key : string) (value : ndarray) (f : obj) (w : world) :
  files w !! filename self = Some f ->
  read_whole f key = Ok value ->
  fst (get_multiple self [key] w) = Ok {[ key := value ]}.
Proof.
  intros Hf Hr. unfold get_multiple, with_file. rewrite Hf.
  cbn [String.eqb Ascii.eqb Bool.eqb fold_each]. unfold bind, read_file. cbn [files].
  now rewrite Hf, Hr.
Qed.

Lemma log_attribute_new (key : string) (value : ndarray) (replace : bool) (w : world) :
  free (content self w) key = true ->
  exists w', log_attribute g self key value replace w = (Ok tt, w') /\
    files w' !! filename self = Some (content self w') /\
    read_whole (content self w') key = Ok value /\
    forall p, Fs.is_prefix (components key) p = false ->
              Fs.is_prefix p (components key) = false ->
              lookup (content self w') p = lookup (content self w) p.
Proof.
  intros Hfree. destruct (free_inv _ _ Hfree) as (Hk & Hl & Hr).
  unfold log_attribute, bind.
  destruct (check_key_bound g self os_bound key w Hk) as (w1 & Hcheck & Hfiles).
  unfold check_key in Hcheck. rewrite Hcheck.
  assert (content self w1 = content self w) as Hc by (unfold content; now rewrite Hfiles).
  assert (in_use self w key = false) as ->.
  { unfold in_use, contains. rewrite Hk. unfold content in Hl.
    destruct (files w !! filename self); [now rewrite Hl | reflexivity]. }
  rewrite with_file_append. unfold write_file.
  rewrite opened_for_append_content, Hc.
  destruct (setitem_free _ key value Hk Hl Hr) as (f' & Hset & Hread & Hother).
  rewrite Hset. eexists. split; [reflexivity|].
  rewrite content_set_file. unfold set_file. cbn [files]. rewrite lookup_insert_eq.
  auto.
Qed.

Lemma log_attribute_replace (key : string) (value : ndarray) (w : world) (f o : obj) :
  files w !! filename self = Some f ->
  wf f = true ->
  components key <> [] ->
  lookup f (components key) = Some o ->
  exists w', log_attribute g self key value true w = (Ok tt, w') /\
    files w' !! filename self = Some (content self w') /\
    read_whole (content self w') key = Ok value /\
    forall p, Fs.is_prefix (components key) p = false ->
              Fs.is_prefix p (components key) = false ->
              lookup (content self w') p = lookup f p.
Proof.
  intros Hf Hwf Hne Hl. pose proof (components_not_empty key Hne) as Hk.
  unfold log_attribute, bind.
  destruct (check_key_bound g self os_bound key w Hk) as (w1 & Hcheck & Hfiles).
  unfold check_key in Hcheck. rewrite Hcheck.
  assert (in_use self w key = true) as ->.
  { unfold in_use, contains. now rewrite Hf, Hk, Hl. }
  cbn [negb]. rewrite with_file_append. unfold bind, write_file at 1.
  rewrite opened_for_append_content.
  assert (content self w1 = f) as -> by (apply content_of; now rewrite Hfiles).
  unfold delitem. rewrite Hk.
  destruct (components key) as [|c cs] eqn:E; [contradiction|]. rewrite Hl.
  unfold write_file, set_file. cbn [files]. rewrite lookup_insert_eq.
  destruct (setitem_free (remove f (c :: cs)) key value Hk) as (f' & Hset & Hread & Hother).
  { rewrite E. now apply (lookup_remove_same f (c :: cs) o). }
  { rewrite E. now apply (reachable_remove f (c :: cs) o). }
  rewrite Hset. eexists. split; [reflexivity|].
  unfold content. cbn [files]. rewrite lookup_insert_eq.
  split; [reflexivity|]. split; [exact Hread|].
  intros p H1 H2. rewrite Hother by (rewrite E; assumption).
  now apply lookup_remove_other.
Qed.

End AttributeFacts.

(** X22. With the name [os] bound among the globals of the module,
    [log_attribute(key, value)] on a key that is free stores the value,
    and with [replace] set it stores the value over what a key of a
    well-formed file holds: the call returns, [get_multiple([key])]
    then returns the value under the key, and every key that is
    neither on the way to [key] nor below it names what it named
    before. *)
Theorem log_attribute_roundtrip (g : list string) (self : Utils.h5_logger)
    (key : string) (value : H5.ndarray) (w : Utils.world) :
  "os" ∈ g ->
  (forall replace,
     H5.free (Utils.content self w) key = true ->
     exists w',
       Utils.log_attribute g self key value replace w = (Ok tt, w') /\
       fst (Utils.get_multiple self [key] w') = Ok {[ key := value ]} /\
       forall p, Fs.is_prefix (H5.components key) p = false ->
                 Fs.is_prefix p (H5.components key) = false ->
                 lookup (Utils.content self w') p = lookup (Utils.content self w) p) /\
  (forall f o,
     Utils.files w !! Utils.filename self = Some f ->
     wf f = true ->
     H5.components key <> [] ->
     lookup f (H5.components key) = Some o ->
     exists w',
       Utils.log_attribute g self key value true w = (Ok tt, w') /\
       fst (Utils.get_multiple self [key] w') = Ok {[ key := value ]} /\
       forall p, Fs.is_prefix (H5.components key) p = false ->
                 Fs.is_prefix p (H5.components key) = false ->
                 lookup (Utils.content self w') p = lookup f p).
Proof.
  intros Hos. split.
  - intros replace Hfree.
    destruct (log_attribute_new g self Hos key value replace w Hfree)
      as (w' & Hrun & Hf' & Hread & Hother).
    exists w'. split; [exact Hrun|]. split; [|exact Hother].
    now apply (get_multiple_one self key value _ w' Hf').
  - intros f o Hf Hwf Hne Hl.
    destruct (log_attribute_replace g self Hos key value w f o Hf Hwf Hne Hl)
      as (w' & Hrun & Hf' & Hread & Hother).
    exists w'. split; [exact Hrun|]. split; [|exact Hother].
    now apply (get_multiple_one self key value _ w' Hf').
Qed.

Lemma log_attribute_roundtrip_witness :
  (exists w',
     Utils.log_attribute ("os" :: Utils.module_globals) Scenario.logger "j"
       Scenario.three_four false Scenario.with_attribute = (Ok tt, w') /\
     fst (Utils.get_multiple Scenario.logger ["j"] w') = Ok {[ "j" := Scenario.three_four ]} /\
     forall p, Fs.is_prefix (H5.components "j") p = false ->
               Fs.is_prefix p (H5.components "j") = false ->
               lookup (Utils.content Scenario.logger w') p
               = lookup (Utils.content Scenario.logger Scenario.with_attribute) p) /\
  (exists w',
     Utils.log_attribute ("os" :: Utils.module_globals) Scenario.logger "k"
       Scenario.three_four true Scenario.with_attribute = (Ok tt, w') /\
     fst (Utils.get_multiple Scenario.logger ["k"] w') = Ok {[ "k" := Scenario.three_four ]} /\
     forall p, Fs.is_prefix (H5.components "k") p = false ->
               Fs.is_prefix p (H5.components "k") = false ->
               lookup (Utils.content Scenario.logger w') p
               = lookup (Utils.content Scenario.logger Scenario.with_attribute) p).
Proof.
  assert ("os" ∈ "os" :: Utils.module_globals) as Hos by (apply elem_of_cons; now left).
  split.
  - destruct (log_attribute_roundtrip ("os" :: Utils.module_globals) Scenario.logger "j"
                Scenario.three_four Scenario.with_attribute Hos) as [H _].
    exact (H false eq_refl).
  - destruct (log_attribute_roundtrip ("os" :: Utils.module_globals) Scenario.logger "k"
                Scenario.three_four Scenario.with_attribute Hos) as [_ H].
    eapply (H (Utils.content Scenario.logger Scenario.with_attribute) _ eq_refl eq_refl);
      [discriminate | reflexivity].
Defined.

Section UniqueKeyMoreFacts.

Variable used : string -> bool.
Variable cand : nat -> string.

(** What the search returns is the candidate of the first counter that
    is not in use. *)
Lemma first_unused_from_inv (fuel n : nat) (q : string) :
  Strategy.first_unused_from used cand fuel n = Some q ->
  exists m, n <= m /\ q = cand m /\ used (cand m) = false /\
    forall j, n <= j < m -> used (cand j) = true.
Proof.
  revert n; induction fuel as [|fuel IH]; intros n; [discriminate|].
  simpl. destruct (used (cand n)) eqn:E.
  - intros H. destruct (IH _ H) as (m & Hm & Hq & Hfree & Hbusy).
    exists m. split; [lia|]. split; [exact Hq|]. split; [exact Hfree|].
    intros j Hj. destruct (Nat.eq_dec j n) as [->|Hne]; [exact E | apply Hbusy; lia].
  - intros [= <-]. exists n. split; [lia|]. split; [reflexivity|]. split; [exact E|].
    intros j Hj. lia.
Qed.

End UniqueKeyMoreFacts.

(** X23. With the name [os] bound among the globals of the module,
    [get_unique_key(base_key)] returns a key that is not in use: the
    base key itself when it is free, else the candidate
    [f"{base_key}_{counter}{suffix}"] of the least counter from 1 on
    that is not in use, which ends with the separator when the base
    key does. *)
Theorem get_unique_key_when_os_bound (g : list string) (self : Utils.h5_logger)
    (base_key : string) (w : Utils.world) :
  "os" ∈ g ->
  String.eqb base_key "" = false ->
  exists k,
    fst (Utils.get_unique_key g self base_key w) = Ok k /\
    Utils.in_use self w k = false /\
    (Utils.in_use self w base_key = false -> k = base_key) /\
    (Utils.in_use self w base_key = true ->
     exists m, 1 <= m /\
       k = Utils.candidate_key (fst (Utils.stem_and_suffix base_key))
             (snd (Utils.stem_and_suffix base_key)) m /\
       forall j, 1 <= j < m ->
         Utils.in_use self w
           (Utils.candidate_key (fst (Utils.stem_and_suffix base_key))
              (snd (Utils.stem_and_suffix base_key)) j) = true) /\
    (endswith_char base_key "/" = true -> endswith_char k "/" = true).
Proof.
  intros Hos Hk.
  destruct (get_unique_key_with_os g self Hos base_key w Hk)
    as (k & Hrun & Hstrategy & Hfree & Hsep).
  exists k. split; [exact Hrun|]. split; [exact Hfree|]. split; [|split; [|exact Hsep]].
  - intros Hbase. unfold Strategy.make_unique in Hstrategy. rewrite Hbase in Hstrategy.
    congruence.
  - intros Hbase. unfold Strategy.make_unique in Hstrategy. rewrite Hbase in Hstrategy.
    destruct (first_unused_from_inv _ _ _ _ _ Hstrategy) as (m & Hm & Hq & _ & Hbusy).
    exists m. auto.
Qed.

Lemma get_unique_key_when_os_bound_witness :
  exists k,
    fst (Utils.get_unique_key ("os" :: Utils.module_globals) Scenario.logger "g/"
           Scenario.with_group) = Ok k /\
    Utils.in_use Scenario.logger Scenario.with_group k = false /\
    (Utils.in_use Scenario.logger Scenario.with_group "g/" = false -> k = "g/") /\
    (Utils.in_use Scenario.logger Scenario.with_group "g/" = true ->
     exists m, 1 <= m /\
       k = Utils.candidate_key (fst (Utils.stem_and_suffix "g/"))
             (snd (Utils.stem_and_suffix "g/")) m /\
       forall j, 1 <= j < m ->
         Utils.in_use Scenario.logger Scenario.with_group
           (Utils.candidate_key (fst (Utils.stem_and_suffix "g/"))
              (snd (Utils.stem_and_suffix "g/")) j) = true) /\
    (endswith_char "g/" "/" = true -> endswith_char k "/" = true).
Proof.
  apply (get_unique_key_when_os_bound ("os" :: Utils.module_globals) Scenario.logger "g/"
           Scenario.with_group); [apply elem_of_cons; now left | reflexivity].
Defined.

(** ** Appends that fail *)

(** X24. [log_value] cannot extend what [log_attribute] stores: on a
    key that holds a dataset that is not chunked, the call raises
    [TypeError], or [IndexError] when the dataset has no axis at all,
    and the files stay as they were. *)
Theorem log_value_on_attribute (broadcast : list nat -> H5.ndarray -> result (list Z))
    (self : Utils.h5_logger) (key : string) (v : H5.ndarray) (w : Utils.world)
    (f : H5.obj) (d : H5.dataset) :
  Utils.files w !! Utils.filename self = Some f ->
  String.eqb key "" = false ->
  lookup f (H5.components key) = Some (Leaf d) ->
  H5.ds_maxrows d = None ->
  Utils.log_value broadcast self key v None w
  = (Raise (match H5.shape (H5.ds_array d) with [] => IndexError | _ => TypeError end),
     Utils.set_opens (Utils.opens w ++ ["a"]) w).
Proof.
  intros Hf Hk Hl Hm. unfold Utils.log_value. rewrite with_file_append.
  rewrite (opened_for_append_present self w f Hf).
  unfold Utils.log_value_in, bind, Utils.read_file. cbn [Utils.files Utils.set_opens].
  rewrite Hf. unfold H5.contains. rewrite Hk, Hl. cbn [negb].
  unfold Utils._append_to_dataset, try_except, Utils._append_to_dataset_once, bind,
    Utils.write_file. cbn [Utils.files Utils.set_opens]. rewrite Hf.
  unfold Utils.grow_by_one, H5.getitem. rewrite Hk, Hl.
  destruct (H5.shape (H5.ds_array d)) as [|rows rest] eqn:Hs; [reflexivity|].
  unfold H5.resize. now rewrite Hm.
Qed.

Lemma log_value_on_attribute_witness :
  Utils.log_value Scenario.no_broadcast Scenario.logger "k" Scenario.three_four None
    Scenario.with_attribute
  = (Raise TypeError,
     Utils.set_opens (Utils.opens Scenario.with_attribute ++ ["a"]) Scenario.with_attribute).
Proof.
  apply (log_value_on_attribute Scenario.no_broadcast Scenario.logger "k" Scenario.three_four
           Scenario.with_attribute
           (Utils.content Scenario.logger Scenario.with_attribute)
           {| H5.ds_array := Scenario.one_two; H5.ds_maxrows := None |});
    reflexivity.
Defined.

(** X25. An append is not undone when its write fails: for a value
    whose shape is not the shape of the records and that [h5py]
    refuses to broadcast, [log_value] raises what the write raises,
    and the dataset has been resized already, one record longer than
    before. *)
Theorem log_value_failed_write_grows (broadcast : list nat -> H5.ndarray -> result (list Z))
    (self : Utils.h5_logger) (key : string) (v : H5.ndarray) (s : list nat) (n : nat)
    (e : exn) (w : Utils.world) :
  H5.records (Utils.content self w) key s = Some n ->
  H5.shape v <> s ->
  broadcast s v = Raise e ->
  Utils.is_BlockingIOError e = false ->
  exists w',
    Utils.log_value broadcast self key v None w = (Raise e, w') /\
    H5.records (Utils.content self w') key s = Some (n + 1).
Proof.
  intros Hrec Hshape Hb He.
  destruct (records_inv _ _ _ _ Hrec) as (Hk & Hc & d & Hl & Hm & Hs).
  assert (exists f, Utils.files w !! Utils.filename self = Some f) as [f Hf].
  { unfold Utils.content in Hl. destruct (Utils.files w !! Utils.filename self); [eauto|].
    destruct (H5.components key); [contradiction | discriminate]. }
  rewrite (content_of self w f Hf) in Hl.
  set (d1 := {| H5.ds_array :=
                  {| H5.shape := (n + 1) :: s;
                     H5.data := firstn ((n + 1) * H5.count s) (H5.data (H5.ds_array d))
                                ++ repeat 0%Z ((n + 1) * H5.count s
                                               - length (H5.data (H5.ds_array d))) |};
                H5.ds_maxrows := Some None |}).
  set (o1 := insert f (H5.components key) (Leaf d1)).
  assert (lookup o1 (H5.components key) = Some (Leaf d1)) as Hl1
    by (eapply lookup_insert_same; eauto).
  assert (Utils.grow_by_one f key = Ok o1) as Hgrow.
  { unfold Utils.grow_by_one, H5.getitem. rewrite Hk, Hl, Hs.
    unfold H5.resize. rewrite Hm, Hs. reflexivity. }
  assert (Utils.write_last broadcast o1 key v = Raise e) as Hwrite.
  { unfold Utils.write_last, H5.getitem. rewrite Hk, Hl1. cbn [H5.ds_array d1 H5.shape].
    replace (n + 1) with (S n) by lia.
    now rewrite bool_decide_eq_false_2, Hb by exact Hshape. }
  exists (Utils.set_file (Utils.filename self) o1
            (Utils.set_opens (Utils.opens w ++ ["a"]) w)). split.
  - unfold Utils.log_value. rewrite with_file_append.
    rewrite (opened_for_append_present self w f Hf).
    unfold Utils.log_value_in, bind, Utils.read_file. cbn [Utils.files Utils.set_opens].
    rewrite Hf. unfold H5.contains. rewrite Hk, Hl. cbn [negb].
    unfold Utils._append_to_dataset, try_except, Utils._append_to_dataset_once, bind,
      Utils.write_file. cbn [Utils.files Utils.set_opens]. rewrite Hf, Hgrow.
    cbn [Utils.set_file Utils.files]. rewrite lookup_insert_eq, Hwrite. now rewrite He.
  - rewrite content_set_file.
    apply (records_intro o1 key s (n + 1) d1 Hk Hc Hl1); reflexivity.
Qed.

Lemma log_value_failed_write_grows_witness :
  exists w',
    Utils.log_value Scenario.no_broadcast Scenario.logger "g/a"
      {| H5.shape := [3]; H5.data := [7; 8; 9]%Z |} None Scenario.with_group
      = (Raise TypeError, w') /\
    H5.records (Utils.content Scenario.logger w') "g/a" [2] = Some (1 + 1).
Proof.
  apply (log_value_failed_write_grows Scenario.no_broadcast Scenario.logger "g/a"
           {| H5.shape := [3]; H5.data := [7; 8; 9]%Z |} [2] 1 TypeError Scenario.with_group);
    [reflexivity | discriminate | reflexivity | reflexivity].
Defined.

(** * [rename_files_with_pattern] *)

(** X26. [rename_files_with_pattern] keeps every file, whatever the
    pattern matches: a file is renamed only to a path where nothing
    is, so that whether the call returns or raises, the contents of
    the regular files are the same collection as before. *)
Theorem rename_files_with_pattern_keeps_files
    (re_findall : string -> string -> result (list (option string)))
    (dir_path pattern : string) (w : Files.world) :
  leaves (Files.fs (snd (Files.rename_files_with_pattern re_findall dir_path pattern w)))
  ≡ₚ leaves (Files.fs w).
Proof.
  revert w. change (Files.keeps_files (Files.rename_files_with_pattern re_findall dir_path pattern)).
  unfold Files.rename_files_with_pattern.
  apply keeps_files_bind; [intros w; reflexivity|]. intros w0.
  apply keeps_files_bind; [|intros; apply keeps_files_ret].
  apply keeps_files_os_walk. intros root dirs files.
  apply keeps_files_for_each. intros file.
  unfold Files.rename_file_with_pattern.
  apply keeps_files_bind; [apply keeps_files_lift|]. intros [|[first|] digits];
    [apply keeps_files_ret | | apply keeps_files_raise].
  intros w. unfold bind, Files.os_path_exists.
  destruct (Fs.exists_ (Files.fs w) (OsPath.join root (first +:+ snd (OsPath.splitext file))))
    eqn:E; cbn [negb]; [reflexivity|].
  unfold Files.os_rename, Files.fs_update.
  destruct (Fs.rename (Files.fs w) _ _) as [fs'| |] eqn:Hren; cbn [snd Files.fs];
    try reflexivity.
  now apply (rename_fresh_leaves (Files.fs w) fs' _ _ Hren).
Qed.
